(** * Left-to-right held-out likelihood evaluator (tomer)

    A shallow embedding of [src/left_to_right_evaluator.cpp] and the
    properties of its specification.

    The program is embedded once, parametric in the arithmetic of its
    [double] values (class [Arith]) and in the uniform sampler it draws from
    (class [Sampler]).  The arithmetic of the program is IEEE binary64
    (Rocq's primitive floats, instance [binary64]), on which the code is
    executed bit for bit; what is proved for every arithmetic uses no law
    of it, or only the laws named in its statement.

    [std::vector::at] is bounds-checked: every access is modelled by [at_] /
    [set_at], which yield [OutOfRange] where the C++ code throws
    [std::out_of_range].  An exception ends the call it is raised in and all
    its callers: nothing in the source catches it.

    Integers: topic ids, positions, sizes and loop counters are unsigned in
    the source and are natural numbers here; [int] values (local and global
    counts, token ids, the result of [sample_new_topic]) are integers of [Z],
    local counts staying within the document length.  The header that
    declares [LocalState], the vector types and the sampler is not part of
    the sources at hand: the record fields are those the code uses, and the
    sampler is a parameter. *)

From Stdlib Require Import ZArith Lia Bool Floats Uint63.
From stdpp Require Import list numbers sorting.

Open Scope Z_scope.

(** ** Exceptions *)

Inductive result (A : Type) : Type :=
| Ok (a : A)
| OutOfRange.
Arguments Ok {A} a.
Arguments OutOfRange {A}.

Definition bind {A B} (r : result A) (k : A -> result B) : result B :=
  match r with
  | Ok a => k a
  | OutOfRange => OutOfRange
  end.

Notation "'try' x := e 'in' k" := (bind e (fun x => k))
  (at level 10, x pattern, e at level 100, k at level 200, only parsing).

(** [v.at(i)] as an rvalue and as an assignment target. *)
Definition at_ {A} (v : list A) (i : nat) : result A :=
  match v !! i with
  | Some a => Ok a
  | None => OutOfRange
  end.

Definition set_at {A} (v : list A) (i : nat) (a : A) : result (list A) :=
  match v !! i with
  | Some _ => Ok (<[i:=a]> v)
  | None => OutOfRange
  end.

(** A counted [for] loop whose body may throw. *)
Fixpoint foldM {A B} (f : B -> A -> result B) (l : list A) (b : B) : result B :=
  match l with
  | [] => Ok b
  | a :: l' => try b' := f b a in foldM f l' b'
  end.

(** ** Arithmetic of [double] *)

Class Arith (F : Type) := {
  f0 : F;
  fadd : F -> F -> F;
  fsub : F -> F -> F;
  fmul : F -> F -> F;
  fdiv : F -> F -> F;
  fltb : F -> F -> bool;
  fleb : F -> F -> bool;
  of_int : Z -> F
}.

Declare Scope arith_scope.
Delimit Scope arith_scope with F.
Infix "+!" := fadd (at level 50, left associativity) : arith_scope.
Infix "-!" := fsub (at level 50, left associativity) : arith_scope.
Infix "*!" := fmul (at level 40, left associativity) : arith_scope.
Infix "/!" := fdiv (at level 40, left associativity) : arith_scope.
Infix "<!" := fltb (at level 68, no associativity) : arith_scope.
Infix "<=!" := fleb (at level 68, no associativity) : arith_scope.
Open Scope arith_scope.

(** The two facts about zero that the drivers rely on; they hold in
    binary64. *)
Class ZeroLaws (F : Type) `{Arith F} : Prop := {
  fadd_0_0 : f0 +! f0 = f0;
  fltb_0_0 : f0 <! f0 = false
}.

(** IEEE binary64.  An [int] converts exactly. *)
Definition float_of_int (z : Z) : float :=
  if z <? 0 then PrimFloat.opp (PrimFloat.of_uint63 (Uint63.of_Z (- z)))
  else PrimFloat.of_uint63 (Uint63.of_Z z).

#[export] Instance binary64 : Arith float := {|
  f0 := PrimFloat.zero;
  fadd := PrimFloat.add;
  fsub := PrimFloat.sub;
  fmul := PrimFloat.mul;
  fdiv := PrimFloat.div;
  fltb := PrimFloat.ltb;
  fleb := PrimFloat.leb;
  of_int := float_of_int
|}.


(** ** The sampler service: one operation, a draw in [0,1) *)

Class Sampler (F G : Type) := {
  next : G -> F * G
}.

(** A stub sampler that replays a fixed sequence of draws for ever. *)
Record Replay (F : Type) := {
  replay_draws : list F;
  replay_cursor : nat
}.
Arguments replay_draws {F} _.
Arguments replay_cursor {F} _.

Definition replay_next {F} `{Arith F} (s : Replay F) : F * Replay F :=
  (nth (replay_cursor s mod length (replay_draws s))%nat (replay_draws s) f0,
   {| replay_draws := replay_draws s; replay_cursor := S (replay_cursor s) |}).

#[export] Instance replay_sampler {F} `{Arith F} : Sampler F (Replay F) := {|
  next := replay_next
|}.

(** ** Integer conversions of the source *)

(** [int] to [uint]. *)
Definition to_uint (z : Z) : nat := Z.to_nat (z mod 2 ^ 32).

(** [v.size() - 1] in [size_t]. *)
Definition size_minus_one (n : nat) : Z :=
  if (n =? 0)%nat then 2 ^ 64 - 1 else Z.of_nat n - 1.

(** ** Data model *)

(** The members of the evaluator that never change after construction. *)
Record Model (F : Type) := {
  n_topics_ : nat;
  alpha_ : list F;
  beta_ : F;
  topic_counts_ : list Z;
  type_topic_counts_ : list (list Z);
  smoothing_only_mass_ : F;
  alpha_sum_ : F;
  beta_sum_ : F
}.
Arguments n_topics_ {F} _.
Arguments alpha_ {F} _.
Arguments beta_ {F} _.
Arguments topic_counts_ {F} _.
Arguments type_topic_counts_ {F} _.
Arguments smoothing_only_mass_ {F} _.
Arguments alpha_sum_ {F} _.
Arguments beta_sum_ {F} _.

(** The evaluator object: the model, the shared coefficient cache and the
    sampler. *)
Record Evaluator (F G : Type) := {
  model : Model F;
  cached_coefficients_ : list F;
  sampler_ : G
}.
Arguments model {F G} _.
Arguments cached_coefficients_ {F G} _.
Arguments sampler_ {F G} _.

(** The state of one pass over one document.  Topic ids, positions and the
    two index cursors are unsigned in the source; local counts are [int]. *)
Record LocalState (F : Type) := {
  doc_topics : list nat;
  topic_counts : list Z;
  topic_index : list nat;
  dense_index : nat;
  non_zero_topics : nat;
  topic_beta_mass : F;
  topic_term_mass : F;
  topic_term_scores : list F;
  type : Z;
  type_topic_counts : list Z
}.
Arguments doc_topics {F} _.
Arguments topic_counts {F} _.
Arguments topic_index {F} _.
Arguments dense_index {F} _.
Arguments non_zero_topics {F} _.
Arguments topic_beta_mass {F} _.
Arguments topic_term_mass {F} _.
Arguments topic_term_scores {F} _.
Arguments type {F} _.
Arguments type_topic_counts {F} _.

Section Program.
Context {F : Type} `{Arith F}.

(** *** Field assignments *)

Definition set_doc_topics (st : LocalState F) v : LocalState F :=
  {| doc_topics := v; topic_counts := topic_counts st;
     topic_index := topic_index st; dense_index := dense_index st;
     non_zero_topics := non_zero_topics st;
     topic_beta_mass := topic_beta_mass st;
     topic_term_mass := topic_term_mass st;
     topic_term_scores := topic_term_scores st;
     type := type st; type_topic_counts := type_topic_counts st |}.

Definition set_counts (st : LocalState F) v m : LocalState F :=
  {| doc_topics := doc_topics st; topic_counts := v;
     topic_index := topic_index st; dense_index := dense_index st;
     non_zero_topics := non_zero_topics st;
     topic_beta_mass := m;
     topic_term_mass := topic_term_mass st;
     topic_term_scores := topic_term_scores st;
     type := type st; type_topic_counts := type_topic_counts st |}.

Definition set_index (st : LocalState F) v di nz : LocalState F :=
  {| doc_topics := doc_topics st; topic_counts := topic_counts st;
     topic_index := v; dense_index := di;
     non_zero_topics := nz;
     topic_beta_mass := topic_beta_mass st;
     topic_term_mass := topic_term_mass st;
     topic_term_scores := topic_term_scores st;
     type := type st; type_topic_counts := type_topic_counts st |}.

Definition set_scores (st : LocalState F) m v : LocalState F :=
  {| doc_topics := doc_topics st; topic_counts := topic_counts st;
     topic_index := topic_index st; dense_index := dense_index st;
     non_zero_topics := non_zero_topics st;
     topic_beta_mass := topic_beta_mass st;
     topic_term_mass := m;
     topic_term_scores := v;
     type := type st; type_topic_counts := type_topic_counts st |}.

Definition set_type (st : LocalState F) ty prof : LocalState F :=
  {| doc_topics := doc_topics st; topic_counts := topic_counts st;
     topic_index := topic_index st; dense_index := dense_index st;
     non_zero_topics := non_zero_topics st;
     topic_beta_mass := topic_beta_mass st;
     topic_term_mass := topic_term_mass st;
     topic_term_scores := topic_term_scores st;
     type := ty; type_topic_counts := prof |}.

(** *** Dense active-topic index *)

(** The backward scan of [maintain_dense_index_addition]:
    [while (dense_index > 0 && topic_index.at(dense_index - 1) > topic)]. *)
Fixpoint insertion_scan (ti : list nat) (di : nat) (topic : nat)
  : result (list nat * nat) :=
  match di with
  | O => Ok (ti, O)
  | S d =>
      try x := at_ ti d in
      if (topic <? x)%nat then
        try ti' := set_at ti (S d) x in
        insertion_scan ti' d topic
      else Ok (ti, S d)
  end.

Definition maintain_dense_index_addition (st : LocalState F) (topic : nat)
  : result (LocalState F) :=
  try c := at_ (topic_counts st) topic in
  if c =? 1 then
    try (ti, di) := insertion_scan (topic_index st) (non_zero_topics st) topic in
    try ti' := set_at ti di topic in
    Ok (set_index st ti' di (S (non_zero_topics st)))
  else Ok st.

(** [while (topic_index.at(dense_index) != topic) dense_index++]: the scan
    reads the vector from [dense_index] on, and [at] throws past its end. *)
Fixpoint find_slot (rest : list nat) (di : nat) (topic : nat) : result nat :=
  match rest with
  | [] => OutOfRange
  | x :: rest' => if (x =? topic)%nat then Ok di else find_slot rest' (S di) topic
  end.

(** One round of the left shift. *)
Definition shift_left_at (ti : list nat) (di : nat) : result (list nat) :=
  if Z.of_nat di <? size_minus_one (length ti) then
    try x := at_ ti (S di) in set_at ti di x
  else Ok ti.

(** The shift loop runs while [dense_index < non_zero_topics], so it leaves
    [dense_index] at the larger of the two.  [--non_zero_topics] is only
    reached with the topic found in the index; it is the predecessor on
    natural numbers. *)
Definition maintain_dense_index_elimination (st : LocalState F) (topic : nat)
  : result (LocalState F) :=
  try c := at_ (topic_counts st) topic in
  if c =? 0 then
    try di := find_slot (topic_index st) 0 topic in
    try ti := foldM shift_left_at (seq di (non_zero_topics st - di)) (topic_index st) in
    Ok (set_index st ti (Nat.max di (non_zero_topics st))
          (Nat.pred (non_zero_topics st)))
  else Ok st.

(** *** Mass and coefficient maintenance *)

Definition add_or_remove_topic_and_update_state_and_coefficients
  (m : Model F) (cc : list F) (st : LocalState F) (topic : nat) (incr : bool)
  : result (list F * LocalState F) :=
  try n := at_ (topic_counts_ m) topic in
  let denom := of_int n +! beta_sum_ m in
  try c := at_ (topic_counts st) topic in
  let mass := topic_beta_mass st -! beta_ m *! of_int c /! denom in
  let c' := if incr then c + 1 else c - 1 in
  try counts := set_at (topic_counts st) topic c' in
  let mass := mass +! beta_ m *! of_int c' /! denom in
  try a := at_ (alpha_ m) topic in
  try cc' := set_at cc topic ((a +! of_int c') /! denom) in
  let st := set_counts st counts mass in
  try st := (if incr then maintain_dense_index_addition st topic
             else maintain_dense_index_elimination st topic) in
  Ok (cc', st).

Definition add_topic_and_update_state_and_coefficients
  (m : Model F) (cc : list F) (st : LocalState F) (topic position : nat)
  : result (list F * LocalState F) :=
  try dt := set_at (doc_topics st) position topic in
  add_or_remove_topic_and_update_state_and_coefficients m cc (set_doc_topics st dt) topic true.

Definition remove_topic_and_update_state_and_coefficients
  (m : Model F) (cc : list F) (st : LocalState F) (topic : nat)
  : result (list F * LocalState F) :=
  add_or_remove_topic_and_update_state_and_coefficients m cc st topic false.

(** *** Topic scores of the current word *)

(** The walk over the profile: [profile] is what is left of
    [state.type_topic_counts] from [index] on. *)
Fixpoint walk_profile (cc : list F) (profile : list Z) (index : nat)
  (mass : F) (scores : list F) : result (F * list F) :=
  match profile with
  | [] => Ok (mass, scores)
  | current_value :: profile' =>
      if 0 <? current_value then
        try c := at_ cc index in
        let score := c *! of_int current_value in
        try scores' := set_at scores index score in
        walk_profile cc profile' (S index) (mass +! score) scores'
      else Ok (mass, scores)
  end.

Definition update_topic_scores (cc : list F) (st : LocalState F)
  : result (LocalState F) :=
  try (mass, scores) :=
    walk_profile cc (type_topic_counts st) 0 f0 (topic_term_scores st) in
  Ok (set_scores st mass scores).

End Program.

Section Drivers.
Context {F : Type} `{Arith F} {G : Type} `{Sampler F G}.

(** *** Three-bucket sampler *)

(** Term bucket: [while (sample > 0) { ++topic; sample -= topic_term_scores.at(topic); }].
    [scores] is what is left of the score vector after index [topic]. *)
Fixpoint term_scan (scores : list F) (topic : Z) (sample : F) : result Z :=
  if f0 <! sample then
    match scores with
    | [] => OutOfRange
    | s :: scores' => term_scan scores' (topic + 1) (sample -! s)
    end
  else Ok topic.

(** Beta bucket: the [for] loop over the dense index, [rounds] rounds being
    left.  Yields the topic and the final [dense_index]. *)
Fixpoint beta_scan (m : Model F) (st : LocalState F) (rounds : nat) (di : nat)
  (sample : F) : result (Z * nat) :=
  match rounds with
  | O => Ok (-1, di)
  | S rounds' =>
      try topic := at_ (topic_index st) di in
      try c := at_ (topic_counts st) topic in
      try n := at_ (topic_counts_ m) topic in
      let sample := sample -! of_int c /! (of_int n +! beta_sum_ m) in
      if sample <=! f0 then Ok (Z.of_nat topic, di)
      else beta_scan m st rounds' (S di) sample
  end.

(** Smoothing-only bucket: [while (sample > 0.0) { ++new_topic; sample -= alpha_.at(new_topic) / ...; }].
    [alphas] is what is left of [alpha_] after index [new_topic]. *)
Fixpoint smoothing_scan (m : Model F) (alphas : list F) (new_topic : nat)
  (sample : F) : result Z :=
  if f0 <! sample then
    match alphas with
    | [] => OutOfRange
    | a :: alphas' =>
        try n := at_ (topic_counts_ m) (S new_topic) in
        smoothing_scan m alphas' (S new_topic)
          (sample -! a /! (of_int n +! beta_sum_ m))
    end
  else Ok (Z.of_nat new_topic).

Definition total_mass (m : Model F) (st : LocalState F) : F :=
  smoothing_only_mass_ m +! topic_beta_mass st +! topic_term_mass st.

Definition sample_new_topic (m : Model F) (smp : G) (st : LocalState F)
  : result (Z * G * LocalState F) :=
  let (u, smp') := next smp in
  let sample := u *! total_mass m st in
  if sample <! topic_term_mass st then
    try topic := term_scan (topic_term_scores st) (-1) sample in
    Ok (topic, smp', st)
  else
    let sample := sample -! topic_term_mass st in
    if sample <! topic_beta_mass st then
      let sample := sample /! beta_ m in
      try (new_topic, di) := beta_scan m st (non_zero_topics st) 0 sample in
      Ok (new_topic, smp',
          set_index st (topic_index st) di (non_zero_topics st))
    else
      let sample := sample -! topic_beta_mass st in
      let sample := sample /! beta_ m in
      try a := at_ (alpha_ m) 0 in
      try n := at_ (topic_counts_ m) 0 in
      let sample := sample -! a /! (of_int n +! beta_sum_ m) in
      try new_topic := smoothing_scan m (drop 1 (alpha_ m)) 0 sample in
      Ok (new_topic, smp', st).

(** *** Per-document driver *)

(** [type < 0 || type >= type_topic_counts_.size()] *)
Definition out_of_vocabulary (m : Model F) (ty : Z) : bool :=
  (ty <? 0) || (Z.of_nat (length (type_topic_counts_ m)) <=? ty).

(** What one pass carries from position to position. *)
Record Pass := {
  pass_cc : list F;
  pass_sampler : G;
  pass_state : LocalState F;
  word_probabilities : list F;
  tokens_so_far : nat
}.

Definition fresh_state (m : Model F) (doc_length : nat) : LocalState F :=
  {| doc_topics := replicate doc_length O;
     topic_counts := replicate (n_topics_ m) 0;
     topic_index := replicate (n_topics_ m) O;
     dense_index := O;
     non_zero_topics := O;
     topic_beta_mass := f0;
     topic_term_mass := f0;
     topic_term_scores := replicate (n_topics_ m) f0;
     type := 0;
     type_topic_counts := [] |}.

(** The body of the resampling sweep, for one earlier position. *)
Definition resample_position (m : Model F) (types : list Z)
  (p : list F * G * LocalState F) (position : nat)
  : result (list F * G * LocalState F) :=
  let '(cc, smp, st) := p in
  try ty := at_ types position in
  if out_of_vocabulary m ty then Ok (cc, smp, st)
  else
    try prof := at_ (type_topic_counts_ m) (Z.to_nat ty) in
    let st := set_type st ty prof in
    try old_topic := at_ (doc_topics st) position in
    try (cc, st) := remove_topic_and_update_state_and_coefficients m cc st old_topic in
    try st := update_topic_scores cc st in
    try (new_topic, smp, st) := sample_new_topic m smp st in
    let new_topic := if new_topic =? -1 then Z.of_nat old_topic else new_topic in
    try (cc, st) :=
      add_topic_and_update_state_and_coefficients m cc st (to_uint new_topic) position in
    Ok (cc, smp, st).

(** What happens at the frontier position when its token is in vocabulary. *)
Definition score_frontier (m : Model F) (ty : Z) (limit : nat) (ps : Pass)
  : result Pass :=
  try prof := at_ (type_topic_counts_ m) (Z.to_nat ty) in
  let st := set_type (pass_state ps) ty prof in
  try st := update_topic_scores (pass_cc ps) st in
  try old := at_ (word_probabilities ps) limit in
  try wp := set_at (word_probabilities ps) limit
              (old +! total_mass m st
                      /! (alpha_sum_ m +! of_int (Z.of_nat (tokens_so_far ps)))) in
  try (new_topic, smp, st) := sample_new_topic m (pass_sampler ps) st in
  let new_topic :=
    if new_topic =? -1 then Z.of_nat (n_topics_ m) - 1 else new_topic in
  try (cc, st) :=
    add_topic_and_update_state_and_coefficients m (pass_cc ps) st (to_uint new_topic) limit in
  Ok {| pass_cc := cc; pass_sampler := smp; pass_state := st;
        word_probabilities := wp; tokens_so_far := S (tokens_so_far ps) |}.

(** The sweep over the positions before [limit], when resampling is on. *)
Definition resampling_sweep (m : Model F) (types : list Z) (resampling : bool)
  (ps : Pass) (limit : nat) : result (list F * G * LocalState F) :=
  if resampling then
    foldM (resample_position m types) (seq 0 limit)
      (pass_cc ps, pass_sampler ps, pass_state ps)
  else Ok (pass_cc ps, pass_sampler ps, pass_state ps).

(** The body of the outer loop, for the position [limit]. *)
Definition process_position (m : Model F) (types : list Z) (resampling : bool)
  (ps : Pass) (limit : nat) : result Pass :=
  try (cc, smp, st) := resampling_sweep m types resampling ps limit in
  let ps := {| pass_cc := cc; pass_sampler := smp; pass_state := st;
               word_probabilities := word_probabilities ps;
               tokens_so_far := tokens_so_far ps |} in
  try ty := at_ types limit in
  if out_of_vocabulary m ty then Ok ps
  else score_frontier m ty limit ps.

(** The teardown loop: one coefficient reset per slot of the dense index. *)
Definition reset_coefficient (m : Model F) (st : LocalState F) (cc : list F)
  (i : nat) : result (list F) :=
  try topic := at_ (topic_index st) i in
  try a := at_ (alpha_ m) topic in
  try n := at_ (topic_counts_ m) topic in
  set_at cc topic (a /! (of_int n +! beta_sum_ m)).

Definition start_pass (m : Model F) (cc : list F) (smp : G) (doc_length : nat)
  : Pass :=
  {| pass_cc := cc; pass_sampler := smp;
     pass_state := fresh_state m doc_length;
     word_probabilities := replicate doc_length f0;
     tokens_so_far := O |}.

(** The pass after the first [k] positions. *)
Definition run_positions (m : Model F) (types : list Z) (resampling : bool)
  (cc : list F) (smp : G) (k : nat) : result Pass :=
  foldM (process_position m types resampling) (seq 0 k)
    (start_pass m cc smp (length types)).

Definition get_word_probabilities (ev : Evaluator F G) (types : list Z)
  (resampling : bool) : result (list F * Evaluator F G) :=
  let m := model ev in
  try ps := run_positions m types resampling
              (cached_coefficients_ ev) (sampler_ ev) (length types) in
  try cc := foldM (reset_coefficient m (pass_state ps))
              (seq 0 (non_zero_topics (pass_state ps))) (pass_cc ps) in
  Ok (word_probabilities ps,
      {| model := m; cached_coefficients_ := cc; sampler_ := pass_sampler ps |}).

(** *** Construction *)

Definition init_topic (alpha : list F) (beta : F) (topic_counts : list Z)
  (beta_sum : F) (p : F * list F) (topic : nat) : result (F * list F) :=
  let (mass, cc) := p in
  try n := at_ topic_counts topic in
  let denom := of_int n +! beta_sum in
  try a := at_ alpha topic in
  try cc' := set_at cc topic (a /! denom) in
  Ok (mass +! a *! beta /! denom, cc').

Definition LeftToRightEvaluator (n_topics : nat) (alpha : list F) (beta : F)
  (topic_counts : list Z) (type_topic_counts : list (list Z)) (smp : G)
  : result (Evaluator F G) :=
  let alpha_sum := fold_left fadd alpha f0 in
  let beta_sum := of_int (Z.of_nat n_topics) *! beta in
  try (mass, cc) :=
    foldM (init_topic alpha beta topic_counts beta_sum) (seq 0 n_topics)
      (f0, replicate n_topics f0) in
  Ok {| model := {| n_topics_ := n_topics; alpha_ := alpha; beta_ := beta;
                    topic_counts_ := topic_counts;
                    type_topic_counts_ := type_topic_counts;
                    smoothing_only_mass_ := mass;
                    alpha_sum_ := alpha_sum; beta_sum_ := beta_sum |};
        cached_coefficients_ := cc; sampler_ := smp |}.

(** *** Evaluator driver *)

(** [log] of the C library. *)
Variable log : F -> F.

(** The particle loop of one document. *)
Definition run_particle (types : list Z) (resampling : bool)
  (p : Evaluator F G * list (list F) * nat) (particle : nat)
  : result (Evaluator F G * list (list F) * nat) :=
  let '(ev, pp, max_len) := p in
  try (probs, ev') := get_word_probabilities ev types resampling in
  try pp' := set_at pp particle probs in
  Ok (ev', pp', Nat.max max_len (length probs)).

(** The inner loop over particles at one position, with its [break]. *)
Fixpoint sum_particles (pp : list (list F)) (position : nat) (sum : F)
  : result F :=
  match pp with
  | [] => Ok sum
  | probs :: pp' =>
      if (length probs <=? position)%nat then Ok sum
      else
        try x := at_ probs position in
        sum_particles pp' position (sum +! x)
  end.

(** One round of the averaging loop.  The source computes
    [log_n_particles = log(n_particles)] once, before the document loop. *)
Definition add_position (n_particles : nat) (pp : list (list F))
  (doc_log_likelihood : F) (position : nat) : result F :=
  try sum := sum_particles pp position f0 in
  if f0 <! sum then
    Ok (doc_log_likelihood +! (log sum -! log (of_int (Z.of_nat n_particles))))
  else Ok doc_log_likelihood.

(** The body of the document loop of [evaluate]. *)
Definition evaluate_document (n_particles : nat) (resampling : bool)
  (p : F * Evaluator F G * list (list F) * nat) (types : list Z)
  : result (F * Evaluator F G * list (list F) * nat) :=
  let '(total_log_likelihood, ev, pp, max_len) := p in
  try (ev, pp, max_len) :=
    foldM (run_particle types resampling) (seq 0 n_particles) (ev, pp, max_len) in
  try doc_log_likelihood :=
    foldM (add_position n_particles pp) (seq 0 max_len) f0 in
  Ok (total_log_likelihood +! doc_log_likelihood, ev, pp, max_len).

Definition evaluate (ev : Evaluator F G) (types : list (list Z))
  (n_particles : nat) (resampling : bool) : result (F * Evaluator F G) :=
  try (total, ev', _, _) :=
    foldM (evaluate_document n_particles resampling) types
      (f0, ev, replicate n_particles [], O) in
  Ok (total, ev').

(** The same driver with the averaging loop of each document running over
    that document's own positions only. *)
Definition evaluate_document_ref (n_particles : nat) (resampling : bool)
  (p : F * Evaluator F G * list (list F)) (types : list Z)
  : result (F * Evaluator F G * list (list F)) :=
  let '(total_log_likelihood, ev, pp) := p in
  try (ev, pp, _) :=
    foldM (run_particle types resampling) (seq 0 n_particles) (ev, pp, O) in
  try doc_log_likelihood :=
    foldM (add_position n_particles pp) (seq 0 (length types)) f0 in
  Ok (total_log_likelihood +! doc_log_likelihood, ev, pp).

Definition evaluate_ref (ev : Evaluator F G) (types : list (list Z))
  (n_particles : nat) (resampling : bool) : result (F * Evaluator F G) :=
  try (total, ev', _) :=
    foldM (evaluate_document_ref n_particles resampling) types
      (f0, ev, replicate n_particles []) in
  Ok (total, ev').

End Drivers.

(** ** Invariants and reference definitions *)

Section Invariants.
Context {F : Type} `{Arith F}.

(** The dense active-topic list: the first [non_zero_topics] slots. *)
Definition active (st : LocalState F) : list nat :=
  take (non_zero_topics st) (topic_index st).

(** The topics with a nonzero local count, in ascending order. *)
Definition nonzero_topics (st : LocalState F) : list nat :=
  filter (fun t => topic_counts st !! t <> Some 0)
    (seq 0 (length (topic_counts st))).

(** The topics with a positive local count, in ascending order. *)
Definition positive_topics (st : LocalState F) : list nat :=
  filter (fun t => 0 < nth t (topic_counts st) 0)
    (seq 0 (length (topic_counts st))).

(** Well-formed dense index of a model with [n] topics: the active list is
    the ascending list of the topics whose local count is positive. *)
Record index_ok (n : nat) (st : LocalState F) : Prop := {
  ok_counts_len : length (topic_counts st) = n;
  ok_index_len : length (topic_index st) = n;
  ok_nz : (non_zero_topics st <= n)%nat;
  ok_sorted : StronglySorted lt (active st);
  ok_members : forall t,
    t ∈ active st <-> exists c, topic_counts st !! t = Some c /\ 0 < c
}.

(** The vectors handed to the constructor cover every topic. *)
Definition model_ok (m : Model F) : Prop :=
  (n_topics_ m <= length (alpha_ m))%nat /\
  (n_topics_ m <= length (topic_counts_ m))%nat.

(** [(alpha[t] + c) / (topic_counts[t] + beta_sum)]: the cached coefficient of
    topic [t] at local count [c]. *)
Definition coefficient (m : Model F) (t : nat) (c : Z) : F :=
  (nth t (alpha_ m) f0 +! of_int c)
    /! (of_int (nth t (topic_counts_ m) 0) +! beta_sum_ m).

(** [alpha[t] / (topic_counts[t] + beta_sum)]: its value at construction. *)
Definition zero_coefficient (m : Model F) (t : nat) : F :=
  nth t (alpha_ m) f0 /! (of_int (nth t (topic_counts_ m) 0) +! beta_sum_ m).

Definition cc_ok (m : Model F) (cc : list F) (counts : list Z) : Prop :=
  length cc = length counts /\
  forall t c, counts !! t = Some c -> cc !! t = Some (coefficient m t c).

(** A run of one-unit operations: [(topic, true)] adds, [(topic, false)]
    removes. *)
Definition apply_op (m : Model F) (p : list F * LocalState F)
  (op : nat * bool) : result (list F * LocalState F) :=
  add_or_remove_topic_and_update_state_and_coefficients m (fst p) (snd p)
    (fst op) (snd op).

Definition run_ops (m : Model F) (cc : list F) (st : LocalState F)
  (ops : list (nat * bool)) : result (list F * LocalState F) :=
  foldM (apply_op m) ops (cc, st).

(** Every operation of the run names one of the [n] topics. *)
Definition ops_in_range (n : nat) (ops : list (nat * bool)) : bool :=
  forallb (fun op => (fst op <? n)%nat) ops.

(** A run is legal from [counts] when every topic exists and every removal
    finds a positive local count. *)
Fixpoint legal_ops (counts : list Z) (ops : list (nat * bool)) : bool :=
  match ops with
  | [] => true
  | (t, incr) :: ops' =>
      match counts !! t with
      | None => false
      | Some c =>
          if incr then legal_ops (<[t:=c + 1]> counts) ops'
          else (0 <? c) && legal_ops (<[t:=c - 1]> counts) ops'
      end
  end.

(** The number of in-vocabulary tokens of a stretch of a document. *)
Definition in_vocab_count (m : Model F) (types : list Z) : nat :=
  length (filter (fun ty => out_of_vocabulary m ty = false) types).

(** The topic carried by position [p], if its token is in vocabulary. *)
Definition slot (m : Model F) (types : list Z) (dt : list nat) (p : nat)
  : list nat :=
  match types !! p, dt !! p with
  | Some ty, Some t => if out_of_vocabulary m ty then [] else [t]
  | _, _ => []
  end.

(** The topics assigned to the in-vocabulary positions before [k]. *)
Definition assigned (m : Model F) (types : list Z) (dt : list nat) (k : nat)
  : list nat :=
  flat_map (slot m types dt) (seq 0 k).

(** How many times [t] occurs in [l]. *)
Definition occ (t : nat) (l : list nat) : Z :=
  Z.of_nat (length (filter (fun x => x = t) l)).

(** The state carried by a pass that has processed [k] positions. *)
Record pass_ok (m : Model F) (types : list Z) (k : nat)
  (cc : list F) (st : LocalState F) : Prop := {
  po_index : index_ok (n_topics_ m) st;
  po_cc : cc_ok m cc (topic_counts st);
  po_doc : length (doc_topics st) = length types;
  po_counts : forall t c, topic_counts st !! t = Some c ->
                c = occ t (assigned m types (doc_topics st) k)
}.

(** [alpha[t] * beta / (topic_counts[t] + beta_sum)]: the prior mass of
    topic [t], its share of the smoothing-only mass. *)
Definition prior_mass (m : Model F) (t : nat) : F :=
  nth t (alpha_ m) f0 *! beta_ m
    /! (of_int (nth t (topic_counts_ m) 0) +! beta_sum_ m).

(** A sum over the topics [0 .. n-1], accumulated as a loop would. *)
Definition sum_over (n : nat) (f : nat -> F) : F :=
  fold_left (fun acc t => acc +! f t) (seq 0 n) f0.

(** The entries of a word's profile that [update_topic_scores] reads: those
    before the first entry that is not positive. *)
Fixpoint profile_prefix (profile : list Z) : list Z :=
  match profile with
  | [] => []
  | v :: profile' => if 0 <? v then v :: profile_prefix profile' else []
  end.



(** Two states with the same assignments, counts and dense index. *)
Definition same_core (st st' : LocalState F) : Prop :=
  doc_topics st' = doc_topics st /\ topic_counts st' = topic_counts st /\
  topic_index st' = topic_index st /\ non_zero_topics st' = non_zero_topics st.

(** The coefficient cache as construction leaves it. *)
Definition cc_zero (m : Model F) (cc : list F) : Prop :=
  length cc = n_topics_ m /\
  forall t, (t < n_topics_ m)%nat -> cc !! t = Some (zero_coefficient m t).

(** Adding the count zero to a prior leaves it as it is.  (In binary64 this
    says that no prior is the negative zero.) *)
Definition priors_plain (m : Model F) : Prop :=
  forall t, (t < n_topics_ m)%nat ->
    nth t (alpha_ m) f0 +! of_int 0 = nth t (alpha_ m) f0.

End Invariants.

Section Recorded.
Context {F : Type} `{Arith F} {G : Type} `{Sampler F G}.

(** [recorded m types resampling cc0 smp0 limit ty v]: the value [v] is the
    marginal probability that a pass started with the cache [cc0] and the
    sampler [smp0] computes for the in-vocabulary token [ty] at position
    [limit]: the three masses, taken right after the topic scores of the
    word have been updated, over [alpha_sum] plus the number of
    in-vocabulary tokens before [limit]. *)
Definition recorded (m : Model F) (types : list Z) (resampling : bool)
  (cc0 : list F) (smp0 : G) (limit : nat) (ty : Z) (v : F) : Prop :=
  exists ps cc smp st prof st',
    run_positions m types resampling cc0 smp0 limit = Ok ps /\
    tokens_so_far ps = in_vocab_count m (take limit types) /\
    resampling_sweep m types resampling ps limit = Ok (cc, smp, st) /\
    at_ (type_topic_counts_ m) (Z.to_nat ty) = Ok prof /\
    update_topic_scores cc (set_type st ty prof) = Ok st' /\
    v = f0 +! total_mass m st'
               /! (alpha_sum_ m
                   +! of_int (Z.of_nat (in_vocab_count m (take limit types)))).

(** An evaluator as the constructor leaves it, whatever its sampler. *)
Definition pristine (ev : Evaluator F G) : Prop :=
  model_ok (model ev) /\ cc_zero (model ev) (cached_coefficients_ ev) /\
  priors_plain (model ev).

End Recorded.

Section MassDefinitions.
Context {F : Type} `{Arith F}.




End MassDefinitions.

(** ** Definitions for the further properties *)

Section ScoreDefinitions.
Context {F : Type} `{Arith F}.

(** The scores that [update_topic_scores] writes for a profile: one product
    per entry of the leading positive run. *)
Definition prefix_scores (cc : list F) (profile : list Z) : list F :=
  zip_with (fun c v => c *! of_int v) cc (profile_prefix profile).

End ScoreDefinitions.

Section SamplerDefinitions.
Context {F : Type} `{Arith F} {G : Type} `{Sampler F G}.

(** The sampler after [k] draws. *)
Definition after_draws (k : nat) (smp : G) : G :=
  Nat.iter k (fun g => snd (next g)) smp.

(** The number of draws of a pass over the first [k] positions of a
    document: one per in-vocabulary token scored at the frontier and, when
    resampling, one more per in-vocabulary token before each frontier. *)
Definition draws (m : Model F) (types : list Z) (resampling : bool) (k : nat)
  : nat :=
  (in_vocab_count m (take k types)
   + if resampling
     then sum_list_with (fun limit => in_vocab_count m (take limit types)) (seq 0 k)
     else 0)%nat.

End SamplerDefinitions.


Section VocabularyDefinitions.
Context {F : Type} `{Arith F} {G : Type} `{Sampler F G}.
Implicit Types (ps : @Pass F G).

(** The in-vocabulary tokens of a document, in order. *)
Definition in_vocabulary (m : Model F) (types : list Z) : list Z :=
  filter (fun ty => out_of_vocabulary m ty = false) types.

(** The entries of a vector that stand at the in-vocabulary positions of a
    document. *)
Fixpoint in_vocabulary_entries {A} (m : Model F) (types : list Z) (v : list A)
  : list A :=
  match types, v with
  | ty :: types', x :: v' =>
      if out_of_vocabulary m ty then in_vocabulary_entries m types' v'
      else x :: in_vocabulary_entries m types' v'
  | _, _ => []
  end.

(** Two passes that agree on everything but the assignments. *)
Definition same_but_assignments ps ps' (n' : nat) : Prop :=
  pass_cc ps' = pass_cc ps /\ pass_sampler ps' = pass_sampler ps /\
  tokens_so_far ps' = tokens_so_far ps /\
  exists dt', pass_state ps' = set_doc_topics (pass_state ps) dt' /\
              length dt' = n'.

(** The particles of a document beside those of its in-vocabulary tokens:
    entry by entry the same, with 0 at the other positions. *)
Definition kept_entries (m : Model F) (types : list Z) (pp pp' : list (list F))
  : Prop :=
  Forall2 (fun v v' =>
             v' = in_vocabulary_entries m types v /\ length v = length types /\
             forall k ty, types !! k = Some ty -> out_of_vocabulary m ty = true ->
                          v !! k = Some f0) pp pp'.

End VocabularyDefinitions.

Section NetDefinitions.

(** The net number of units that a run of operations adds to topic [t]. *)
Definition net (t : nat) (ops : list (nat * bool)) : Z :=
  foldr (fun (op : nat * bool) acc =>
           (if decide (fst op = t) then if snd op then 1 else -1 else 0) + acc)
    0 ops.

End NetDefinitions.

(** ** Scenarios *)

(** A stub sampler at the start of its sequence. *)
Definition stub {F} (draws : list F) : Replay F :=
  {| replay_draws := draws; replay_cursor := 0 |}.

Definition blank {F} `{Arith F} : Evaluator F (Replay F) :=
  {| model := {| n_topics_ := 0; alpha_ := []; beta_ := f0;
                 topic_counts_ := []; type_topic_counts_ := [];
                 smoothing_only_mass_ := f0; alpha_sum_ := f0;
                 beta_sum_ := f0 |};
     cached_coefficients_ := []; sampler_ := stub [] |}.

Definition built {F} `{Arith F} (r : result (Evaluator F (Replay F)))
  : Evaluator F (Replay F) :=
  match r with Ok ev => ev | OutOfRange => blank end.

(** A stand-in for [log] in executions (binary64 has none in Rocq); the
    properties hold for every function in its place. *)
Definition log1 (x : float) : float := PrimFloat.sub x 1.

(** Two topics, two words, binary64. *)
Definition worked_draws : list float := [0.9375; 0.0625; 0.5; 0.25]%float.

Definition worked_ev : Evaluator float (Replay float) :=
  Eval vm_compute in
    built (LeftToRightEvaluator 2 [0.125; 0.125]%float 0.015625%float [5; 5]
             [[3; 0]; [2; 1; 0]] (stub worked_draws)).

(** The same model with a sampler that always draws 0. *)
Definition zero_ev : Evaluator float (Replay float) :=
  {| model := model worked_ev;
     cached_coefficients_ := cached_coefficients_ worked_ev;
     sampler_ := stub [0%float] |}.

(** Nine topics whose priors leave a rounding residue: the first word has
    all nine topics in its profile, the second none. *)
Definition residue_ev : Evaluator float (Replay float) :=
  Eval vm_compute in
    built (LeftToRightEvaluator 9
             [1; 0x1.8p-53; 0x1.8p-53; 0x1.8p-53; 0x1.8p-53; 0x1.8p-53;
              0x1.8p-53; 0x1.8p-53; 0x1.8p-53]%float
             0x1p-60%float [1; 1; 1; 1; 1; 1; 1; 1; 1]
             [[1; 1; 1; 1; 1; 1; 1; 1; 1; 0]; [0]]
             (stub [0x1.fffffffffffffp-1%float])).

(** The state in which the first token of a document of the residue model
    is scored. *)
Definition residue_state (ty : Z) : LocalState float :=
  Eval vm_compute in
    match
      update_topic_scores (cached_coefficients_ residue_ev)
        (set_type (fresh_state (model residue_ev) 1) ty
           (nth (Z.to_nat ty) (type_topic_counts_ (model residue_ev)) []))
    with
    | Ok st => st
    | OutOfRange => fresh_state (model residue_ev) 1
    end.

(** The pass over the document [0; 0] with the sampler that always draws
    0, after its first position. *)
Definition zero_pass : @Pass float (Replay float) :=
  Eval vm_compute in
    match
      run_positions (model zero_ev) [0; 0] true
        (cached_coefficients_ zero_ev) (sampler_ zero_ev) 1
    with
    | Ok ps => ps
    | OutOfRange =>
        start_pass (model zero_ev) (cached_coefficients_ zero_ev)
          (sampler_ zero_ev) 2
    end.

(** The state in which the first token, word 1, of a document of the worked
    model is scored. *)
Definition worked_state : LocalState float :=
  Eval vm_compute in
    match
      update_topic_scores (cached_coefficients_ worked_ev)
        (set_type (fresh_state (model worked_ev) 1) 1 [2; 1; 0])
    with
    | Ok st => st
    | OutOfRange => fresh_state (model worked_ev) 1
    end.

(** The worked model after topic 1 has been assigned to the first of three
    positions: the coefficient cache and the local state. *)
Definition one_token : list float * LocalState float :=
  Eval vm_compute in
    match
      add_topic_and_update_state_and_coefficients (model worked_ev)
        (cached_coefficients_ worked_ev) (fresh_state (model worked_ev) 3) 1 0
    with
    | Ok r => r
    | OutOfRange =>
        (cached_coefficients_ worked_ev, fresh_state (model worked_ev) 3)
    end.




(** * Proofs *)

(** ** Vectors and loops *)

Lemma at_Ok {A} (v : list A) i a : at_ v i = Ok a <-> v !! i = Some a.
Proof. unfold at_. destruct (v !! i); split; congruence. Qed.

Lemma at_lt {A} (v : list A) i :
  (i < length v)%nat -> exists a, at_ v i = Ok a /\ v !! i = Some a.
Proof.
  intros Hi. apply lookup_lt_is_Some_2 in Hi as [a Ha].
  exists a. split; [by apply at_Ok|done].
Qed.

Lemma at_nth {A} (v : list A) i d :
  (i < length v)%nat -> at_ v i = Ok (nth i v d).
Proof.
  intros Hi. apply at_Ok.
  destruct (nth_lookup_or_length v i d); [done|lia].
Qed.

Lemma set_at_lt {A} (v : list A) i a :
  (i < length v)%nat -> set_at v i a = Ok (<[i:=a]> v).
Proof.
  intros Hi. unfold set_at.
  by destruct (lookup_lt_is_Some_2 _ _ Hi) as [x ->].
Qed.

Lemma set_at_Ok {A} (v v' : list A) i a :
  set_at v i a = Ok v' -> (i < length v)%nat /\ v' = <[i:=a]> v.
Proof.
  unfold set_at. destruct (v !! i) eqn:E; [|done].
  intros [= <-]. split; [by eapply lookup_lt_Some|done].
Qed.

Lemma bind_Ok {A B} (r : result A) (k : A -> result B) b :
  bind r k = Ok b -> exists a, r = Ok a /\ k a = Ok b.
Proof. destruct r; simpl; [eauto|done]. Qed.

Lemma foldM_app {A B} (f : B -> A -> result B) l1 l2 b :
  foldM f (l1 ++ l2) b = bind (foldM f l1 b) (foldM f l2).
Proof.
  revert b. induction l1 as [|a l1 IH]; intros b; simpl; [done|].
  destruct (f b a); simpl; [apply IH|done].
Qed.

Lemma size_minus_one_pos n : (0 < n)%nat -> size_minus_one n = Z.of_nat n - 1.
Proof. unfold size_minus_one. destruct n; [lia|done]. Qed.

Lemma StronglySorted_sublist {A} (R : relation A) l k :
  k `sublist_of` l -> StronglySorted R l -> StronglySorted R k.
Proof.
  induction 1 as [|x k l Hs IH|x k l Hs IH]; intros Hl.
  - constructor.
  - apply StronglySorted_inv in Hl as [Hl Hx]. constructor; [by apply IH|].
    rewrite !Forall_forall in *. intros y Hy. apply Hx.
    by eapply elem_of_sublist.
  - apply StronglySorted_inv in Hl as [Hl _]. by apply IH.
Qed.

Lemma StronglySorted_lt_seq a n : StronglySorted lt (seq a n).
Proof.
  revert a. induction n as [|n IH]; intros a; simpl; constructor; [apply IH|].
  apply Forall_seq. lia.
Qed.

Lemma StronglySorted_lt_NoDup l : StronglySorted lt l -> NoDup l.
Proof.
  induction 1 as [|x l Hl IH Hx]; constructor; [|done].
  intros Hin. rewrite Forall_forall in Hx. specialize (Hx _ Hin). lia.
Qed.

#[local] Instance lt_antisym : AntiSymm eq lt.
Proof. intros x y ??. lia. Qed.

Lemma sorted_same_members (l k : list nat) :
  StronglySorted lt l -> StronglySorted lt k ->
  (forall x, x ∈ l <-> x ∈ k) -> l = k.
Proof.
  intros Hl Hk Hm. apply (StronglySorted_unique lt); [done..|].
  apply NoDup_Permutation; auto using StronglySorted_lt_NoDup.
Qed.

(** ** The dense index as an array *)

Lemma insertion_scan_spec topic k : forall ti,
  (k < length ti)%nat ->
  exists ti' d,
    insertion_scan ti k topic = Ok (ti', d) /\
    (d <= k)%nat /\ length ti' = length ti /\
    (forall i, (i <= d)%nat -> ti' !! i = ti !! i) /\
    (forall i, (d < i <= k)%nat -> ti' !! i = ti !! (i - 1)%nat) /\
    (forall i, (k < i)%nat -> ti' !! i = ti !! i) /\
    (forall i x, (d <= i < k)%nat -> ti !! i = Some x -> (topic < x)%nat) /\
    (forall x, (0 < d)%nat -> ti !! (d - 1)%nat = Some x -> (x <= topic)%nat).
Proof.
  induction k as [|j IH]; intros ti Hk; simpl.
  - exists ti, O. repeat split; auto with lia.
  - destruct (at_lt ti j) as (x & -> & Hx); [lia|]. simpl.
    destruct (Nat.ltb_spec topic x) as [Hlt|Hge].
    + rewrite set_at_lt by lia. simpl.
      destruct (IH (<[S j:=x]> ti)) as (ti' & d & -> & Hd & Hlen & H1 & H2 & H3 & H4 & H5).
      { rewrite length_insert. lia. }
      rewrite length_insert in Hlen.
      exists ti', d. repeat split; [lia|done|..].
      * intros i Hi. rewrite H1 by done. apply list_lookup_insert_ne. lia.
      * intros i Hi. destruct (decide (i = S j)) as [->|Hne].
        -- rewrite H3 by lia. rewrite list_lookup_insert_eq by lia.
           by replace (S j - 1)%nat with j by lia.
        -- rewrite H2 by lia. apply list_lookup_insert_ne. lia.
      * intros i Hi. rewrite H3 by lia. apply list_lookup_insert_ne. lia.
      * intros i y Hi Hy. destruct (decide (i = j)) as [->|Hne].
        -- congruence.
        -- apply (H4 i); [lia|]. rewrite list_lookup_insert_ne by lia. done.
      * intros y Hd0 Hy. apply H5; [done|].
        rewrite list_lookup_insert_ne by lia. done.
    + exists ti, (S j). repeat split; auto with lia.
      intros y _. replace (S j - 1)%nat with j by lia. congruence.
Qed.

Lemma find_slot_spec topic : forall l i d,
  l !! d = Some topic ->
  (forall j, (j < d)%nat -> l !! j <> Some topic) ->
  find_slot l i topic = Ok (i + d)%nat.
Proof.
  induction l as [|x l IH]; intros i d Hd Hfirst; [done|]. simpl.
  destruct d as [|d].
  - simpl in Hd. injection Hd as ->. rewrite Nat.eqb_refl. f_equal. lia.
  - destruct (Nat.eqb_spec x topic) as [->|Hne].
    + exfalso. by apply (Hfirst O); [lia|].
    + rewrite (IH (S i) d); [f_equal; lia|done|].
      intros j Hj. apply (Hfirst (S j)). lia.
Qed.

Lemma shift_left_spec k : forall d ti,
  (0 < length ti)%nat ->
  exists ti',
    foldM shift_left_at (seq d k) ti = Ok ti' /\
    length ti' = length ti /\
    (forall i, (i < d)%nat -> ti' !! i = ti !! i) /\
    (forall i, (d <= i < d + k)%nat -> (S i < length ti)%nat ->
               ti' !! i = ti !! S i) /\
    (forall i, (d + k <= i)%nat -> ti' !! i = ti !! i).
Proof.
  induction k as [|k IH]; intros d ti Hlen; simpl.
  - exists ti. repeat split; auto with lia.
  - assert (exists ti1, shift_left_at ti d = Ok ti1 /\ length ti1 = length ti /\
              (forall i, i <> d -> ti1 !! i = ti !! i) /\
              ((S d < length ti)%nat -> ti1 !! d = ti !! S d))
      as (ti1 & -> & Hlen1 & Hne & Heq).
    { unfold shift_left_at. rewrite size_minus_one_pos by done.
      destruct (Z.ltb_spec (Z.of_nat d) (Z.of_nat (length ti) - 1)) as [Hlt|Hge].
      - destruct (at_lt ti (S d)) as (x & -> & Hx); [lia|]. simpl.
        rewrite set_at_lt by lia. eexists. split; [done|].
        rewrite length_insert. repeat split.
        + intros i Hi. by apply list_lookup_insert_ne.
        + intros _. rewrite list_lookup_insert_eq by lia. done.
      - exists ti. repeat split; auto with lia. }
    simpl. destruct (IH (S d) ti1) as (ti' & -> & Hlen' & H1 & H2 & H3); [lia|].
    exists ti'. repeat split; [congruence|..].
    + intros i Hi. rewrite H1 by lia. apply Hne. lia.
    + intros i Hi Hsi. destruct (decide (i = d)) as [->|Hd].
      * rewrite H1 by lia. by apply Heq.
      * rewrite H2 by lia. apply Hne. lia.
    + intros i Hi. rewrite H3 by lia. apply Hne. lia.
Qed.

Lemma sorted_lookup_lt (l : list nat) : StronglySorted lt l ->
  forall i j x y, (i < j)%nat -> l !! i = Some x -> l !! j = Some y -> (x < y)%nat.
Proof.
  induction 1 as [|a l Hl IH Ha]; intros i j x y Hij Hx Hy; [done|].
  destruct j as [|j]; [lia|]. simpl in Hy.
  destruct i as [|i]; simpl in Hx.
  - injection Hx as ->. rewrite Forall_forall in Ha. apply Ha.
    by eapply list_elem_of_lookup_2.
  - apply (IH i j); [lia|done..].
Qed.

Lemma sorted_insert (a : list nat) d t :
  StronglySorted lt a -> t ∉ a -> (d <= length a)%nat ->
  (forall i x, (d <= i)%nat -> a !! i = Some x -> (t < x)%nat) ->
  (forall x, (0 < d)%nat -> a !! (d - 1)%nat = Some x -> (x <= t)%nat) ->
  StronglySorted lt (take d a ++ t :: drop d a).
Proof.
  intros Ha Ht Hd Hhi Hlo.
  assert (Hdrop : Forall (lt t) (drop d a)).
  { apply Forall_lookup. intros i x Hx. rewrite lookup_drop in Hx.
    apply (Hhi (d + i)%nat); [lia|done]. }
  apply StronglySorted_app_2.
  - intros x1 x2 H1 H2.
    apply elem_of_take in H1 as (i & Hi & Hid).
    assert (x1 < t)%nat.
    { assert (x1 <> t) by (intros ->; apply Ht; by eapply list_elem_of_lookup_2).
      destruct (lookup_lt_is_Some_2 a (d - 1)) as [z Hz]; [lia|].
      assert (z <= t)%nat by (apply Hlo; [lia|done]).
      destruct (decide (i = d - 1)%nat) as [->|Hne]; [naive_solver lia|].
      assert (x1 < z)%nat by (apply (sorted_lookup_lt a Ha i (d - 1)%nat); [lia|done..]).
      lia. }
    apply elem_of_cons in H2 as [->|H2]; [done|].
    rewrite Forall_forall in Hdrop. specialize (Hdrop _ H2). lia.
  - eapply StronglySorted_sublist; [apply sublist_take|done].
  - constructor; [|done].
    eapply StronglySorted_sublist; [apply sublist_drop|done].
Qed.

Lemma insert_members (a : list nat) d t x :
  x ∈ take d a ++ t :: drop d a <-> x = t \/ x ∈ a.
Proof.
  rewrite <- (take_drop d a) at 3.
  rewrite !elem_of_app, elem_of_cons. tauto.
Qed.

Lemma delete_members (a : list nat) d t x :
  NoDup a -> a !! d = Some t ->
  x ∈ delete d a <-> x ∈ a /\ x <> t.
Proof.
  intros Hnd Hd. rewrite delete_take_drop.
  pose proof (take_drop_middle a d t Hd) as Ha.
  revert Hnd. clear Hd.
  generalize dependent (take d a). generalize dependent (drop (S d) a).
  intros l2 l1 <- Hnd.
  apply NoDup_app in Hnd as (H1 & H2 & H3).
  apply NoDup_cons in H3 as [H3 H4].
  rewrite !elem_of_app, elem_of_cons. split.
  - intros [Hx|Hx]; (split; [tauto|]); intros ->.
    + apply (H2 t); [done|]. apply elem_of_cons. by left.
    + done.
  - intros [[Hx|[->|Hx]] Hne]; tauto.
Qed.

(** ** The dense index as a sorted set *)

Section IndexSpecs.
Context {F : Type} `{Arith F}.
Implicit Types st : LocalState F.

Lemma active_length n st : index_ok n st -> length (active st) = non_zero_topics st.
Proof.
  intros Hok. unfold active. apply length_take_le.
  rewrite (ok_index_len _ _ Hok). apply (ok_nz _ _ Hok).
Qed.

Lemma active_bound n st t : index_ok n st -> t ∈ active st -> (t < n)%nat.
Proof.
  intros Hok Ht. apply (ok_members _ _ Hok) in Ht as (c & Hc & _).
  rewrite <- (ok_counts_len _ _ Hok). by eapply lookup_lt_Some.
Qed.

Lemma active_eq_positive n st : index_ok n st -> active st = positive_topics st.
Proof.
  intros Hok. apply sorted_same_members.
  - apply (ok_sorted _ _ Hok).
  - eapply StronglySorted_sublist; [apply sublist_filter|apply StronglySorted_lt_seq].
  - intros t. rewrite (ok_members _ _ Hok). unfold positive_topics.
    rewrite list_elem_of_filter, elem_of_seq. split.
    + intros (c & Hc & Hpos). rewrite (nth_lookup_Some _ _ _ _ Hc).
      split; [done|]. apply lookup_lt_Some in Hc. lia.
    + intros [Hpos [_ Hlt]]. simpl in Hlt.
      destruct (lookup_lt_is_Some_2 _ _ Hlt) as [c Hc].
      exists c. split; [done|]. by rewrite (nth_lookup_Some _ _ _ _ Hc) in Hpos.
Qed.

(** The positive counts are the nonzero ones when no count is negative. *)
Lemma positive_eq_nonzero st :
  Forall (fun c => 0 <= c) (topic_counts st) ->
  positive_topics st = nonzero_topics st.
Proof.
  intros Hnn. unfold positive_topics, nonzero_topics.
  apply sorted_same_members.
  - eapply StronglySorted_sublist; [apply sublist_filter|apply StronglySorted_lt_seq].
  - eapply StronglySorted_sublist; [apply sublist_filter|apply StronglySorted_lt_seq].
  - intros t. rewrite !list_elem_of_filter, elem_of_seq. simpl.
    split; intros [Hp [_ Hlt]]; (split; [|lia]);
      destruct (lookup_lt_is_Some_2 _ _ Hlt) as [c Hc];
      rewrite (nth_lookup_Some _ _ _ _ Hc) in *; rewrite Hc in *;
      rewrite Forall_lookup in Hnn; pose proof (Hnn _ _ Hc) as Hc0; simpl in Hc0.
    + intros [= ->]. lia.
    + destruct (decide (c = 0)) as [->|]; [done|lia].
Qed.

(** A topic with count zero leaves room for one more slot. *)
Lemma active_room n st t :
  index_ok n st -> topic_counts st !! t = Some 0 ->
  (non_zero_topics st < n)%nat.
Proof.
  intros Hok Ht. rewrite <- (active_length n st Hok).
  assert (Hsub : (t :: active st) ⊆+ seq 0 n).
  { apply NoDup_submseteq.
    - constructor; [|apply StronglySorted_lt_NoDup, (ok_sorted _ _ Hok)].
      rewrite (ok_members _ _ Hok). intros (c & Hc & Hne).
      rewrite Ht in Hc. injection Hc as <-. lia.
    - intros x Hx. apply elem_of_seq. split; [lia|]. simpl.
      apply elem_of_cons in Hx as [->|Hx]; [|by eapply active_bound].
      rewrite <- (ok_counts_len _ _ Hok). by eapply lookup_lt_Some. }
  apply submseteq_length in Hsub. rewrite length_seq in Hsub. simpl in Hsub. lia.
Qed.

Lemma take_after_insertion (ti ti' : list nat) d k t :
  (d <= k)%nat -> (k < length ti)%nat -> length ti' = length ti ->
  (forall i, (i <= d)%nat -> ti' !! i = ti !! i) ->
  (forall i, (d < i <= k)%nat -> ti' !! i = ti !! (i - 1)%nat) ->
  take (S k) (<[d:=t]> ti') = take d (take k ti) ++ t :: drop d (take k ti).
Proof.
  intros Hd Hk Hlen H1 H2. apply list_eq. intros i.
  destruct (decide (i < d)%nat) as [Hlt|Hge].
  { rewrite lookup_take_lt, list_lookup_insert_ne, H1 by lia.
    rewrite lookup_app_l by (rewrite !length_take; lia).
    by rewrite !lookup_take_lt by lia. }
  rewrite lookup_app_r by (rewrite !length_take; lia).
  rewrite !length_take.
  replace (d `min` (k `min` length ti))%nat with d by lia.
  destruct (decide (i = d)) as [->|Hne].
  { rewrite lookup_take_lt, list_lookup_insert_eq by lia.
    by replace (d - d)%nat with O by lia. }
  destruct (decide (i <= k)%nat) as [Hle|Hgt].
  - rewrite lookup_take_lt, list_lookup_insert_ne, H2 by lia.
    replace (i - d)%nat with (S (i - d - 1)) by lia. simpl.
    rewrite lookup_drop, lookup_take_lt by lia. f_equal. lia.
  - rewrite lookup_take_ge by lia.
    replace (i - d)%nat with (S (i - d - 1)) by lia. simpl.
    rewrite lookup_drop, lookup_take_ge by lia. done.
Qed.

Lemma take_after_elimination (ti ti' : list nat) d nz :
  (d < nz)%nat -> (nz <= length ti)%nat -> length ti' = length ti ->
  (forall i, (i < d)%nat -> ti' !! i = ti !! i) ->
  (forall i, (d <= i < d + (nz - d))%nat -> (S i < length ti)%nat ->
             ti' !! i = ti !! S i) ->
  take (Nat.pred nz) ti' = delete d (take nz ti).
Proof.
  intros Hd Hnz Hlen H1 H2. apply list_eq. intros i.
  destruct (decide (i < Nat.pred nz)%nat) as [Hlt|Hge].
  - rewrite lookup_take_lt by done.
    destruct (decide (i < d)%nat) as [Hid|Hid].
    + rewrite list_lookup_delete_lt, lookup_take_lt, H1 by lia. done.
    + rewrite list_lookup_delete_ge, lookup_take_lt, H2 by lia. done.
  - rewrite lookup_take_ge by lia.
    rewrite list_lookup_delete_ge, lookup_take_ge by lia. done.
Qed.

Lemma addition_spec n st t c mass :
  index_ok n st -> topic_counts st !! t = Some c ->
  exists ti di nz,
    maintain_dense_index_addition
      (set_counts st (<[t:=c + 1]> (topic_counts st)) mass) t
    = Ok (set_index (set_counts st (<[t:=c + 1]> (topic_counts st)) mass) ti di nz) /\
    index_ok n (set_index (set_counts st (<[t:=c + 1]> (topic_counts st)) mass) ti di nz).
Proof.
  intros Hok Hc.
  pose proof (lookup_lt_Some _ _ _ Hc) as Ht.
  unfold maintain_dense_index_addition. cbn [topic_counts set_counts].
  rewrite (proj2 (at_Ok _ _ _) (list_lookup_insert_eq _ _ _ Ht)). cbn [bind].
  destruct (Z.eqb_spec (c + 1) 1) as [Hc1|Hc1].
  - assert (c = 0) as -> by lia. clear Hc1.
    pose proof (active_room n st t Hok Hc) as Hroom.
    pose proof (ok_index_len _ _ Hok) as Hlen.
    cbn [topic_index non_zero_topics set_counts].
    destruct (insertion_scan_spec t (non_zero_topics st) (topic_index st))
      as (ti' & d & -> & Hd & Hlen' & H1 & H2 & H3 & H4 & H5); [lia|].
    cbn [bind]. rewrite set_at_lt by lia. cbn [bind].
    eexists _, _, _. split; [done|].
    assert (Hact : take (S (non_zero_topics st)) (<[d:=t]> ti')
                   = take d (active st) ++ t :: drop d (active st)).
    { apply take_after_insertion; auto with lia. }
    assert (Hnotin : t ∉ active st).
    { rewrite (ok_members _ _ Hok). intros (c & Hc' & Hne).
      rewrite Hc in Hc'. injection Hc' as <-. lia. }
    split; cbn [topic_counts topic_index non_zero_topics set_index set_counts].
    + rewrite length_insert. apply (ok_counts_len _ _ Hok).
    + rewrite length_insert. lia.
    + lia.
    + unfold active. cbn [topic_index non_zero_topics set_index set_counts].
      rewrite Hact. apply sorted_insert.
      * apply (ok_sorted _ _ Hok).
      * done.
      * rewrite (active_length n st Hok). done.
      * intros i x Hi Hx. unfold active in Hx.
        apply lookup_take_Some in Hx as [Hx Hlt]. by apply (H4 i x).
      * intros x Hd0 Hx. unfold active in Hx.
        apply lookup_take_Some in Hx as [Hx Hlt]. by apply H5.
    + intros x. unfold active at 1.
      cbn [topic_index non_zero_topics set_index set_counts].
      rewrite Hact, insert_members, (ok_members _ _ Hok).
      destruct (decide (x = t)) as [->|Hne].
      * rewrite list_lookup_insert_eq by done. split; [|tauto].
        intros _. exists 1. split; [done|lia].
      * rewrite list_lookup_insert_ne by done. split; [|tauto].
        intros [?|?]; [done|done].
  - exists (topic_index st), (dense_index st), (non_zero_topics st).
    split; [reflexivity|].
    split; cbn [topic_counts topic_index non_zero_topics set_index set_counts].
    + rewrite length_insert. apply (ok_counts_len _ _ Hok).
    + apply (ok_index_len _ _ Hok).
    + apply (ok_nz _ _ Hok).
    + apply (ok_sorted _ _ Hok).
    + intros x. change (active (set_index _ _ _ _)) with (active st).
      rewrite (ok_members _ _ Hok).
      destruct (decide (x = t)) as [->|Hne].
      * rewrite list_lookup_insert_eq by done. split.
        -- intros (c0 & Hc0 & Hp). rewrite Hc in Hc0. injection Hc0 as <-.
           exists (c + 1). split; [done|lia].
        -- intros (c0 & [= <-] & Hp). exists c. split; [done|lia].
      * rewrite list_lookup_insert_ne by done. done.
Qed.

Lemma elimination_spec n st t c mass :
  index_ok n st -> topic_counts st !! t = Some c ->
  exists ti di nz,
    maintain_dense_index_elimination
      (set_counts st (<[t:=c - 1]> (topic_counts st)) mass) t
    = Ok (set_index (set_counts st (<[t:=c - 1]> (topic_counts st)) mass) ti di nz) /\
    index_ok n (set_index (set_counts st (<[t:=c - 1]> (topic_counts st)) mass) ti di nz).
Proof.
  intros Hok Hc.
  pose proof (lookup_lt_Some _ _ _ Hc) as Ht.
  unfold maintain_dense_index_elimination. cbn [topic_counts set_counts].
  rewrite (proj2 (at_Ok _ _ _) (list_lookup_insert_eq _ _ _ Ht)). cbn [bind].
  destruct (Z.eqb_spec (c - 1) 0) as [Hc1|Hc1].
  - assert (c = 1) as -> by lia. clear Hc1.
    pose proof (ok_index_len _ _ Hok) as Hlen.
    pose proof (ok_nz _ _ Hok) as Hnz.
    pose proof (StronglySorted_lt_NoDup _ (ok_sorted _ _ Hok)) as Hnd.
    assert (Hin : t ∈ active st).
    { apply (ok_members _ _ Hok). exists 1. split; [done|lia]. }
    unfold active in Hin. apply elem_of_take in Hin as (d & Hd & Hdnz).
    assert (Hfirst : forall j, (j < d)%nat -> topic_index st !! j <> Some t).
    { intros j Hj Hjt.
      assert (j = d); [|lia].
      apply (NoDup_lookup (active st) j d t Hnd); unfold active;
        by rewrite lookup_take_lt by lia. }
    cbn [topic_index non_zero_topics set_counts].
    rewrite (find_slot_spec t _ 0 d Hd Hfirst). cbn [bind plus].
    destruct (shift_left_spec (non_zero_topics st - d) d (topic_index st))
      as (ti' & -> & Hlen' & H1 & H2 & H3); [lia|].
    cbn [bind]. eexists _, _, _. split; [done|].
    assert (Hact : take (Nat.pred (non_zero_topics st)) ti' = delete d (active st)).
    { apply take_after_elimination; auto with lia. }
    assert (Hd' : active st !! d = Some t).
    { unfold active. by rewrite lookup_take_lt by lia. }
    split; cbn [topic_counts topic_index non_zero_topics set_index set_counts].
    + rewrite length_insert. apply (ok_counts_len _ _ Hok).
    + lia.
    + lia.
    + unfold active at 1. cbn [topic_index non_zero_topics set_index set_counts].
      rewrite Hact. eapply StronglySorted_sublist; [apply sublist_delete|].
      apply (ok_sorted _ _ Hok).
    + intros x. unfold active at 1.
      cbn [topic_index non_zero_topics set_index set_counts].
      rewrite Hact, (delete_members _ d t x Hnd Hd'), (ok_members _ _ Hok).
      destruct (decide (x = t)) as [->|Hne].
      * rewrite list_lookup_insert_eq by done. split; [tauto|].
        intros (c & [= <-] & Hc0). lia.
      * rewrite list_lookup_insert_ne by done. tauto.
  - exists (topic_index st), (dense_index st), (non_zero_topics st).
    split; [reflexivity|].
    split; cbn [topic_counts topic_index non_zero_topics set_index set_counts].
    + rewrite length_insert. apply (ok_counts_len _ _ Hok).
    + apply (ok_index_len _ _ Hok).
    + apply (ok_nz _ _ Hok).
    + apply (ok_sorted _ _ Hok).
    + intros x. change (active (set_index _ _ _ _)) with (active st).
      rewrite (ok_members _ _ Hok).
      destruct (decide (x = t)) as [->|Hne].
      * rewrite list_lookup_insert_eq by done. split.
        -- intros (c0 & Hc0 & Hp). rewrite Hc in Hc0. injection Hc0 as <-.
           exists (c - 1). split; [done|lia].
        -- intros (c0 & [= <-] & Hp). exists c. split; [done|lia].
      * rewrite list_lookup_insert_ne by done. done.
Qed.

(** One unit added to or removed from a well-formed state. *)
Lemma add_or_remove_spec (m : Model F) cc st t (incr : bool) c :
  model_ok m -> index_ok (n_topics_ m) st -> length cc = n_topics_ m ->
  topic_counts st !! t = Some c ->
  let c' := if incr then c + 1 else c - 1 in
  let denom := of_int (nth t (topic_counts_ m) 0) +! beta_sum_ m in
  let mass := topic_beta_mass st -! beta_ m *! of_int c /! denom
                +! beta_ m *! of_int c' /! denom in
  exists ti di nz,
    let st' := set_index (set_counts st (<[t:=c']> (topic_counts st)) mass) ti di nz in
    add_or_remove_topic_and_update_state_and_coefficients m cc st t incr
    = Ok (<[t:=coefficient m t c']> cc, st') /\
    index_ok (n_topics_ m) st'.
Proof.
  intros [Ha Hn] Hok Hcc Hc c' denom mass.
  pose proof (lookup_lt_Some _ _ _ Hc) as Ht.
  rewrite (ok_counts_len _ _ Hok) in Ht.
  unfold add_or_remove_topic_and_update_state_and_coefficients.
  rewrite (at_nth (topic_counts_ m) t 0) by lia. cbn [bind].
  rewrite (proj2 (at_Ok _ _ _) Hc). cbn [bind].
  rewrite set_at_lt by (rewrite (ok_counts_len _ _ Hok); lia). cbn [bind].
  rewrite (at_nth (alpha_ m) t f0) by lia. cbn [bind].
  rewrite set_at_lt by lia. cbn [bind].
  fold denom. fold c'. fold mass.
  change ((nth t (alpha_ m) f0 +! of_int c') /! denom) with (coefficient m t c').
  destruct incr; subst c'.
  - destruct (addition_spec _ st t c mass Hok Hc) as (ti & di & nz & -> & Hok').
    cbn [bind]. by exists ti, di, nz.
  - destruct (elimination_spec _ st t c mass Hok Hc) as (ti & di & nz & -> & Hok').
    cbn [bind]. by exists ti, di, nz.
Qed.

End IndexSpecs.

Section OpRuns.
Context {F : Type} `{Arith F}.
Implicit Types st : LocalState F.

Lemma index_ok_ext n st st' :
  topic_counts st' = topic_counts st -> topic_index st' = topic_index st ->
  non_zero_topics st' = non_zero_topics st ->
  index_ok n st -> index_ok n st'.
Proof.
  intros Hc Hi Hnz [H1 H2 H3 H4 H5].
  split; unfold active in *; rewrite ?Hc, ?Hi, ?Hnz; done.
Qed.

Lemma index_ok_fresh (m : Model F) doc_length :
  index_ok (n_topics_ m) (fresh_state m doc_length).
Proof.
  split; simpl.
  - apply length_replicate.
  - apply length_replicate.
  - lia.
  - constructor.
  - intros t. unfold active. simpl. split; [by intros ?%elem_of_nil|].
    intros (c & Hc & Hne). apply lookup_replicate in Hc as [-> _]. lia.
Qed.

(** Every run over existing topics returns and keeps the index well formed. *)
Lemma run_ops_total (m : Model F) ops : forall cc st,
  model_ok m -> index_ok (n_topics_ m) st -> length cc = n_topics_ m ->
  ops_in_range (n_topics_ m) ops = true ->
  exists cc' st',
    run_ops m cc st ops = Ok (cc', st') /\
    index_ok (n_topics_ m) st' /\ length cc' = n_topics_ m.
Proof.
  induction ops as [|[t incr] ops IH]; intros cc st Hm Hok Hcc Hrange.
  - exists cc, st. split; [reflexivity|by split].
  - simpl in Hrange. apply andb_true_iff in Hrange as [Ht Hrange].
    apply Nat.ltb_lt in Ht. rewrite <- (ok_counts_len _ _ Hok) in Ht.
    destruct (lookup_lt_is_Some_2 _ _ Ht) as [c Hc].
    destruct (add_or_remove_spec m cc st t incr c Hm Hok Hcc Hc)
      as (ti & di & nz & Hrun & Hok').
    unfold run_ops. simpl. unfold apply_op at 1. simpl. rewrite Hrun. simpl.
    apply IH; [done|done|by rewrite length_insert|done].
Qed.

(** A legal run moreover keeps the counts non-negative. *)
Lemma run_ops_spec (m : Model F) ops : forall cc st,
  model_ok m -> index_ok (n_topics_ m) st -> length cc = n_topics_ m ->
  Forall (fun c => 0 <= c) (topic_counts st) ->
  legal_ops (topic_counts st) ops = true ->
  exists cc' st',
    run_ops m cc st ops = Ok (cc', st') /\
    index_ok (n_topics_ m) st' /\ length cc' = n_topics_ m /\
    Forall (fun c => 0 <= c) (topic_counts st').
Proof.
  induction ops as [|[t incr] ops IH]; intros cc st Hm Hok Hcc Hnn Hlegal.
  - exists cc, st. split; [reflexivity|by split_and!].
  - simpl in Hlegal. destruct (topic_counts st !! t) as [c|] eqn:Hc; [|done].
    assert (0 <= c) as Hc0.
    { rewrite Forall_lookup in Hnn. apply (Hnn _ _ Hc). }
    destruct (add_or_remove_spec m cc st t incr c Hm Hok Hcc Hc)
      as (ti & di & nz & Hrun & Hok').
    unfold run_ops. simpl. unfold apply_op at 1. simpl. rewrite Hrun. simpl.
    apply IH; [done|done|by rewrite length_insert|..]; simpl.
    + apply Forall_insert; [done|].
      destruct incr; [lia|]. apply andb_true_iff in Hlegal as [Hpos _]. lia.
    + destruct incr; [done|].
      by apply andb_true_iff in Hlegal as [_ Hl].
Qed.

Lemma legal_ops_in_range ops : forall counts,
  legal_ops counts ops = true -> ops_in_range (length counts) ops = true.
Proof.
  induction ops as [|[t incr] ops IH]; intros counts Hlegal; [done|].
  simpl in *. destruct (counts !! t) as [c|] eqn:Hc; [|done].
  apply lookup_lt_Some in Hc. apply andb_true_iff. split; [by apply Nat.ltb_lt|].
  destruct incr.
  - apply IH in Hlegal. by rewrite length_insert in Hlegal.
  - apply andb_true_iff in Hlegal as [_ Hlegal].
    apply IH in Hlegal. by rewrite length_insert in Hlegal.
Qed.

End OpRuns.

(** ** Counting assigned topics *)

Lemma occ_nil t : occ t [] = 0.
Proof. done. Qed.

Lemma occ_app t l1 l2 : occ t (l1 ++ l2) = occ t l1 + occ t l2.
Proof. unfold occ. rewrite filter_app, length_app. lia. Qed.

Lemma occ_singleton t x : occ t [x] = if decide (x = t) then 1 else 0.
Proof.
  unfold occ. rewrite filter_cons, filter_nil.
  by destruct (decide (x = t)).
Qed.

Lemma occ_pos t l : t ∈ l -> 0 < occ t l.
Proof.
  intros Hin. apply list_elem_of_split in Hin as (l1 & l2 & ->).
  rewrite occ_app. change (t :: l2) with ([t] ++ l2).
  rewrite occ_app, occ_singleton. rewrite decide_True by done.
  unfold occ. lia.
Qed.

Section Assigned.
Context {F : Type} `{Arith F}.
Implicit Types (m : Model F) (dt : list nat).

Lemma assigned_S m types dt k :
  assigned m types dt (S k) = assigned m types dt k ++ slot m types dt k.
Proof.
  unfold assigned. rewrite seq_S, flat_map_app. simpl. by rewrite app_nil_r.
Qed.

Lemma slot_insert_ne m types dt p q x :
  p <> q -> slot m types (<[p:=x]> dt) q = slot m types dt q.
Proof. intros Hne. unfold slot. by rewrite list_lookup_insert_ne. Qed.

Lemma assigned_insert_ge m types dt p k x :
  (k <= p)%nat -> assigned m types (<[p:=x]> dt) k = assigned m types dt k.
Proof.
  induction k as [|k IH]; intros Hk; [done|].
  rewrite !assigned_S, IH, slot_insert_ne by lia. done.
Qed.

Lemma occ_assigned_insert m types dt p k ty old new t :
  (p < k)%nat -> types !! p = Some ty -> out_of_vocabulary m ty = false ->
  dt !! p = Some old ->
  occ t (assigned m types (<[p:=new]> dt) k)
  = occ t (assigned m types dt k)
    - (if decide (old = t) then 1 else 0) + (if decide (new = t) then 1 else 0).
Proof.
  intros Hp Hty Hoov Hold. induction k as [|k IH]; [lia|].
  rewrite !assigned_S, !occ_app.
  destruct (decide (p = k)) as [->|Hne].
  - rewrite assigned_insert_ge by lia. unfold slot.
    rewrite Hty, Hold, Hoov.
    rewrite list_lookup_insert_eq by (by eapply lookup_lt_Some).
    rewrite !occ_singleton. lia.
  - rewrite IH, slot_insert_ne by lia. lia.
Qed.

Lemma assigned_slot_elem m types dt p k ty old :
  (p < k)%nat -> types !! p = Some ty -> out_of_vocabulary m ty = false ->
  dt !! p = Some old -> old ∈ assigned m types dt k.
Proof.
  intros Hp Hty Hoov Hold. unfold assigned.
  apply list_elem_of_In, in_flat_map. exists p. split.
  - apply in_seq. lia.
  - unfold slot. rewrite Hty, Hold, Hoov. by left.
Qed.

End Assigned.

(** ** What the steps of a pass leave untouched *)

(** Inversion of a successful sequence of steps. *)
Ltac inv_bind H :=
  let x := fresh "x" in
  let Hx := fresh "Hx" in
  apply bind_Ok in H as (x & Hx & H).

Section Frames.
Context {F : Type} `{Arith F} {G : Type} `{Sampler F G}.
Implicit Types (m : Model F) (st : LocalState F) (cc : list F).

Lemma same_core_refl st : same_core st st.
Proof. by repeat split. Qed.

Lemma same_core_trans st1 st2 st3 :
  same_core st1 st2 -> same_core st2 st3 -> same_core st1 st3.
Proof. unfold same_core. intuition congruence. Qed.

Lemma pass_ok_core m types k cc st st' :
  same_core st st' -> pass_ok m types k cc st -> pass_ok m types k cc st'.
Proof.
  intros (Hd & Hc & Hi & Hn) [H1 H2 H3 H4]. split.
  - by eapply index_ok_ext.
  - by rewrite Hc.
  - by rewrite Hd.
  - rewrite Hc, Hd. done.
Qed.

Lemma update_topic_scores_core cc st st' :
  update_topic_scores cc st = Ok st' -> same_core st st'.
Proof.
  unfold update_topic_scores. intros Hu. inv_bind Hu.
  destruct x as [mass scores]. injection Hu as <-. by repeat split.
Qed.

Lemma sample_new_topic_core m smp st nt smp' st' :
  sample_new_topic m smp st = Ok (nt, smp', st') -> same_core st st'.
Proof.
  unfold sample_new_topic. destruct (next smp) as [u smp1].
  destruct (_ <! _).
  { intros Hs. inv_bind Hs. injection Hs as <- <- <-. apply same_core_refl. }
  destruct (_ <! _).
  { intros Hs. inv_bind Hs. destruct x as [t di].
    injection Hs as <- <- <-. by repeat split. }
  intros Hs. do 3 inv_bind Hs. injection Hs as <- <- <-. apply same_core_refl.
Qed.

End Frames.

(** ** One pass over a document keeps its state well formed *)

Section PassInvariant.
Context {F : Type} `{Arith F} {G : Type} `{Sampler F G}.
Implicit Types (m : Model F) (st : LocalState F) (cc : list F).

Lemma cc_ok_insert m cc counts t c' :
  cc_ok m cc counts ->
  cc_ok m (<[t:=coefficient m t c']> cc) (<[t:=c']> counts).
Proof.
  intros [Hlen Hcc]. split; [by rewrite !length_insert|].
  intros t' c Hc. destruct (decide (t = t')) as [<-|Hne].
  - pose proof (lookup_lt_Some _ _ _ Hc) as Hlt. rewrite length_insert in Hlt.
    rewrite list_lookup_insert_eq in Hc by done. injection Hc as <-.
    rewrite list_lookup_insert_eq by lia. done.
  - rewrite list_lookup_insert_ne in Hc by done.
    rewrite list_lookup_insert_ne by done. by apply Hcc.
Qed.

Lemma add_or_remove_topic_Ok_count m cc st t incr r :
  add_or_remove_topic_and_update_state_and_coefficients m cc st t incr = Ok r ->
  exists c, topic_counts st !! t = Some c.
Proof.
  unfold add_or_remove_topic_and_update_state_and_coefficients.
  intros Hr. do 2 inv_bind Hr. apply at_Ok in Hx0. eauto.
Qed.

Lemma add_topic_inv m cc st t pos cc' st' :
  model_ok m -> index_ok (n_topics_ m) st -> cc_ok m cc (topic_counts st) ->
  add_topic_and_update_state_and_coefficients m cc st t pos = Ok (cc', st') ->
  exists c, topic_counts st !! t = Some c /\
    (pos < length (doc_topics st))%nat /\
    doc_topics st' = <[pos:=t]> (doc_topics st) /\
    topic_counts st' = <[t:=c + 1]> (topic_counts st) /\
    index_ok (n_topics_ m) st' /\ cc_ok m cc' (topic_counts st').
Proof.
  intros Hm Hok Hcc. unfold add_topic_and_update_state_and_coefficients.
  intros Ha. inv_bind Ha. apply set_at_Ok in Hx as [Hpos ->].
  destruct (add_or_remove_topic_Ok_count _ _ _ _ _ _ Ha) as [c Hc].
  cbn [topic_counts set_doc_topics] in Hc.
  assert (Hok0 : index_ok (n_topics_ m) (set_doc_topics st (<[pos:=t]> (doc_topics st))))
    by (by apply (index_ok_ext _ st)).
  destruct (add_or_remove_spec m cc _ t true c Hm Hok0) as (ti & di & nz & Hrun & Hok');
    [destruct Hcc as [-> _]; apply (ok_counts_len _ _ Hok)|done|].
  rewrite Hrun in Ha. injection Ha as <- <-.
  exists c. split_and!; try done.
  cbn [topic_counts set_index set_counts set_doc_topics]. by apply cc_ok_insert.
Qed.

Lemma remove_topic_inv m cc st t c cc' st' :
  model_ok m -> index_ok (n_topics_ m) st -> cc_ok m cc (topic_counts st) ->
  topic_counts st !! t = Some c -> 0 < c ->
  remove_topic_and_update_state_and_coefficients m cc st t = Ok (cc', st') ->
  doc_topics st' = doc_topics st /\
  topic_counts st' = <[t:=c - 1]> (topic_counts st) /\
  index_ok (n_topics_ m) st' /\ cc_ok m cc' (topic_counts st').
Proof.
  intros Hm Hok Hcc Hc Hpos. unfold remove_topic_and_update_state_and_coefficients.
  intros Hr.
  destruct (add_or_remove_spec m cc _ t false c Hm Hok) as (ti & di & nz & Hrun & Hok');
    [destruct Hcc as [-> _]; apply (ok_counts_len _ _ Hok)|done|].
  rewrite Hrun in Hr. injection Hr as <- <-.
  split_and!; try done.
  cbn [topic_counts set_index set_counts]. by apply cc_ok_insert.
Qed.

Lemma pass_ok_set_type m types k cc st ty prof :
  pass_ok m types k cc st -> pass_ok m types k cc (set_type st ty prof).
Proof. apply pass_ok_core. by repeat split. Qed.

Lemma resample_position_ok m types k p cc smp st cc' smp' st' :
  model_ok m -> (p < k)%nat -> pass_ok m types k cc st ->
  resample_position m types (cc, smp, st) p = Ok (cc', smp', st') ->
  pass_ok m types k cc' st'.
Proof.
  intros Hm Hp Hps. unfold resample_position. intros Hr.
  inv_bind Hr. rename x into ty. apply at_Ok in Hx.
  destruct (out_of_vocabulary m ty) eqn:Hoov.
  { by injection Hr as <- <- <-. }
  inv_bind Hr. rename x into prof.
  inv_bind Hr. rename x into old. apply at_Ok in Hx1.
  cbn [doc_topics set_type] in Hx1.
  inv_bind Hr. destruct x as [cc1 st1].
  inv_bind Hr. rename x into st2.
  inv_bind Hr. destruct x as [[nt smp2] st3].
  inv_bind Hr. destruct x as [cc4 st4]. injection Hr as <- <- <-.
  set (new := to_uint (if nt =? -1 then Z.of_nat old else nt)) in *.
  pose proof (pass_ok_set_type m types k cc st ty prof Hps) as Hps0.
  destruct Hps0 as [Hok0 Hcc0 Hdoc0 Hcnt0].
  destruct (add_or_remove_topic_Ok_count m cc _ old false _ Hx2) as [c Hc].
  assert (0 < c) as Hcpos.
  { rewrite (Hcnt0 _ _ Hc). apply occ_pos.
    by eapply (assigned_slot_elem m types _ p k ty old). }
  destruct (remove_topic_inv m cc _ old c cc1 st1 Hm Hok0 Hcc0 Hc Hcpos Hx2)
    as (Hd1 & Hc1 & Hok1 & Hcc1).
  pose proof (update_topic_scores_core _ _ _ Hx3) as Hcore2.
  pose proof (sample_new_topic_core _ _ _ _ _ _ Hx4) as Hcore3.
  pose proof (same_core_trans _ _ _ Hcore2 Hcore3) as (Hd3 & Hc3 & Hi3 & Hn3).
  assert (Hok3 : index_ok (n_topics_ m) st3) by (by apply (index_ok_ext _ st1)).
  assert (Hcc3 : cc_ok m cc1 (topic_counts st3)) by (by rewrite Hc3).
  destruct (add_topic_inv m cc1 st3 new p cc4 st4 Hm Hok3 Hcc3 Hx5)
    as (c3 & Hcn & Hpos & Hd4 & Hc4 & Hok4 & Hcc4).
  split; [done|done|..].
  - rewrite Hd4, length_insert, Hd3, Hd1. done.
  - intros t c' Hc'. rewrite Hd4, Hd3, Hd1. cbn [doc_topics set_type].
    rewrite (occ_assigned_insert m types (doc_topics st) p k ty old new t) by done.
    rewrite Hc4, Hc3, Hc1 in Hc'. rewrite Hc3, Hc1 in Hcn.
    cbn [topic_counts set_type] in Hc', Hcn, Hc, Hcnt0.
    cbn [doc_topics set_type] in Hcnt0.
    destruct (decide (new = t)) as [<-|Hnt].
    + rewrite list_lookup_insert_eq in Hc'
        by (rewrite length_insert; by eapply lookup_lt_Some in Hcn;
            rewrite length_insert in Hcn).
      injection Hc' as <-.
      destruct (decide (old = new)) as [<-|Hon].
      * rewrite list_lookup_insert_eq in Hcn by (by eapply lookup_lt_Some).
        injection Hcn as <-. rewrite (Hcnt0 _ _ Hc). lia.
      * rewrite list_lookup_insert_ne in Hcn by done.
        rewrite (Hcnt0 _ _ Hcn). lia.
    + rewrite list_lookup_insert_ne in Hc' by done.
      destruct (decide (old = t)) as [<-|Hot].
      * rewrite list_lookup_insert_eq in Hc' by (by eapply lookup_lt_Some).
        injection Hc' as <-. rewrite (Hcnt0 _ _ Hc). lia.
      * rewrite list_lookup_insert_ne in Hc' by done.
        rewrite (Hcnt0 _ _ Hc'). lia.
Qed.

Lemma sweep_ok m types k cc smp st cc' smp' st' : forall l,
  model_ok m -> Forall (fun p => (p < k)%nat) l -> pass_ok m types k cc st ->
  foldM (resample_position m types) l (cc, smp, st) = Ok (cc', smp', st') ->
  pass_ok m types k cc' st'.
Proof.
  intros l Hm. revert cc smp st.
  induction l as [|p l IH]; intros cc smp st Hl Hps; simpl.
  - by intros [= <- <- <-].
  - intros Hr. inv_bind Hr. destruct x as [[cc1 smp1] st1].
    apply Forall_cons in Hl as [Hp Hl].
    eapply IH; [done| |done].
    by eapply resample_position_ok.
Qed.

Lemma resampling_sweep_ok m types resampling ps k cc smp st :
  model_ok m -> pass_ok m types k (pass_cc ps) (pass_state ps) ->
  resampling_sweep m types resampling ps k = Ok (cc, smp, st) ->
  pass_ok m types k cc st.
Proof.
  intros Hm Hps. unfold resampling_sweep. destruct resampling.
  - apply sweep_ok; [done| |done]. apply Forall_seq. lia.
  - by intros [= <- <- <-].
Qed.

Lemma pass_ok_skip m types k cc st :
  slot m types (doc_topics st) k = [] ->
  pass_ok m types k cc st -> pass_ok m types (S k) cc st.
Proof.
  intros Hslot [H1 H2 H3 H4]. split; [done..|].
  intros t c Hc. rewrite assigned_S, Hslot, app_nil_r. by apply H4.
Qed.

Lemma score_frontier_ok m types k ty ps ps' :
  model_ok m -> types !! k = Some ty -> out_of_vocabulary m ty = false ->
  pass_ok m types k (pass_cc ps) (pass_state ps) ->
  score_frontier m ty k ps = Ok ps' ->
  pass_ok m types (S k) (pass_cc ps') (pass_state ps').
Proof.
  intros Hm Hty Hoov Hps. unfold score_frontier. intros Hr.
  inv_bind Hr. rename x into prof.
  inv_bind Hr. rename x into st1.
  inv_bind Hr. rename x into old.
  inv_bind Hr. rename x into wp.
  inv_bind Hr. destruct x as [[nt smp2] st2].
  inv_bind Hr. destruct x as [cc3 st3]. injection Hr as <-.
  cbn [pass_cc pass_state].
  set (new := to_uint _) in *.
  pose proof (pass_ok_set_type m types k _ _ ty prof Hps) as Hps0.
  pose proof (update_topic_scores_core _ _ _ Hx0) as Hcore1.
  pose proof (sample_new_topic_core _ _ _ _ _ _ Hx3) as Hcore2.
  pose proof (pass_ok_core _ _ _ _ _ _ (same_core_trans _ _ _ Hcore1 Hcore2) Hps0)
    as [Hok2 Hcc2 Hdoc2 Hcnt2].
  destruct (add_topic_inv m _ st2 new k cc3 st3 Hm Hok2 Hcc2 Hx4)
    as (c & Hcn & Hpos & Hd3 & Hc3 & Hok3 & Hcc3).
  split; [done|done|..].
  - by rewrite Hd3, length_insert.
  - intros t c' Hc'. rewrite assigned_S, occ_app, Hd3.
    rewrite assigned_insert_ge by lia. unfold slot.
    rewrite Hty, Hoov, list_lookup_insert_eq by done. rewrite occ_singleton.
    rewrite Hc3 in Hc'. destruct (decide (new = t)) as [<-|Hne].
    + rewrite list_lookup_insert_eq in Hc' by (by eapply lookup_lt_Some).
      injection Hc' as <-. rewrite (Hcnt2 _ _ Hcn). lia.
    + rewrite list_lookup_insert_ne in Hc' by done.
      rewrite (Hcnt2 _ _ Hc'). lia.
Qed.

Lemma process_position_ok m types resampling k ps ps' :
  model_ok m -> pass_ok m types k (pass_cc ps) (pass_state ps) ->
  process_position m types resampling ps k = Ok ps' ->
  pass_ok m types (S k) (pass_cc ps') (pass_state ps').
Proof.
  intros Hm Hps. unfold process_position. intros Hr.
  inv_bind Hr. destruct x as [[cc smp] st].
  pose proof (resampling_sweep_ok _ _ _ _ _ _ _ _ Hm Hps Hx) as Hps1.
  inv_bind Hr. rename x into ty. apply at_Ok in Hx0.
  destruct (out_of_vocabulary m ty) eqn:Hoov.
  - injection Hr as <-. cbn [pass_cc pass_state].
    apply pass_ok_skip; [|done]. unfold slot. rewrite Hx0, Hoov.
    by destruct (doc_topics st !! k).
  - eapply score_frontier_ok in Hr; [done..|]. done.
Qed.

Lemma run_positions_S m types resampling cc smp k :
  run_positions m types resampling cc smp (S k)
  = bind (run_positions m types resampling cc smp k)
      (fun ps => process_position m types resampling ps k).
Proof.
  unfold run_positions. rewrite seq_S, foldM_app. simpl.
  destruct (foldM _ _ _); simpl; [|done]. by destruct (process_position _ _ _ _ _).
Qed.

Lemma pass_ok_start m types cc :
  cc_zero m cc -> priors_plain m ->
  pass_ok m types 0 cc (fresh_state m (length types)).
Proof.
  intros [Hlen Hcc] Hlaw. split.
  - apply index_ok_fresh.
  - split; simpl; [by rewrite length_replicate|].
    intros t c [-> Ht]%lookup_replicate.
    rewrite (Hcc t Ht). unfold coefficient, zero_coefficient.
    by rewrite (Hlaw t Ht).
  - simpl. apply length_replicate.
  - intros t c [-> Ht]%lookup_replicate. done.
Qed.

Lemma run_positions_ok m types resampling cc smp k ps :
  model_ok m -> cc_zero m cc -> priors_plain m ->
  run_positions m types resampling cc smp k = Ok ps ->
  pass_ok m types k (pass_cc ps) (pass_state ps).
Proof.
  intros Hm Hcc Hlaw. revert ps. induction k as [|k IH]; intros ps.
  - intros [= <-]. simpl. by apply pass_ok_start.
  - rewrite run_positions_S. intros Hr. inv_bind Hr.
    eapply process_position_ok; [done|by apply IH|done].
Qed.

(** The teardown loop resets exactly the active topics. *)
Lemma reset_coefficients_spec m st cc :
  model_ok m -> index_ok (n_topics_ m) st -> length cc = n_topics_ m ->
  exists cc',
    foldM (reset_coefficient m st) (seq 0 (non_zero_topics st)) cc = Ok cc' /\
    length cc' = n_topics_ m /\
    forall t, cc' !! t = if decide (t ∈ active st)
                         then Some (zero_coefficient m t) else cc !! t.
Proof.
  intros [Ha Hn] Hok Hlen.
  assert (Hgen : forall j, (j <= non_zero_topics st)%nat ->
    exists cc',
      foldM (reset_coefficient m st) (seq 0 j) cc = Ok cc' /\
      length cc' = n_topics_ m /\
      forall t, cc' !! t = if decide (t ∈ take j (topic_index st))
                           then Some (zero_coefficient m t) else cc !! t).
  { induction j as [|j IH]; intros Hj.
    - exists cc. split; [done|]. split; [done|]. intros t.
      rewrite decide_False; [done|]. simpl. apply not_elem_of_nil.
    - destruct IH as (cc1 & Hrun & Hlen1 & Hcc1); [lia|].
      rewrite seq_S, foldM_app, Hrun. simpl.
      pose proof (ok_index_len _ _ Hok) as Hti. pose proof (ok_nz _ _ Hok) as Hnz.
      destruct (at_lt (topic_index st) j) as (topic & Hat & Htopic); [lia|].
      assert (Hin : topic ∈ active st).
      { unfold active. apply elem_of_take. exists j. split; [done|lia]. }
      pose proof (active_bound _ _ _ Hok Hin) as Hbound.
      unfold reset_coefficient at 1. rewrite Hat. simpl.
      rewrite (at_nth (alpha_ m) topic f0) by lia. simpl.
      rewrite (at_nth (topic_counts_ m) topic 0) by lia. simpl.
      rewrite set_at_lt by lia. simpl.
      eexists. split; [done|]. split; [by rewrite length_insert|].
      intros t. rewrite (take_S_r _ _ _ Htopic).
      destruct (decide (t = topic)) as [->|Hne].
      + rewrite list_lookup_insert_eq by lia.
        rewrite decide_True; [done|]. apply elem_of_app. right. by apply list_elem_of_singleton.
      + rewrite list_lookup_insert_ne by done. rewrite Hcc1.
        apply decide_ext. rewrite elem_of_app, list_elem_of_singleton. tauto. }
  apply (Hgen (non_zero_topics st)). lia.
Qed.

Lemma get_word_probabilities_restores (ev ev' : Evaluator F G) types resampling wp :
  model_ok (model ev) -> cc_zero (model ev) (cached_coefficients_ ev) ->
  priors_plain (model ev) ->
  get_word_probabilities ev types resampling = Ok (wp, ev') ->
  model ev' = model ev /\ cached_coefficients_ ev' = cached_coefficients_ ev.
Proof.
  intros Hm Hcc Hlaw. unfold get_word_probabilities. intros Hr.
  inv_bind Hr. rename x into ps.
  inv_bind Hr. rename x into cc'. injection Hr as <- <-. simpl.
  split; [done|].
  pose proof (run_positions_ok _ _ _ _ _ _ _ Hm Hcc Hlaw Hx) as [Hok [Hl Hco] _ Hcnt].
  destruct (reset_coefficients_spec (model ev) (pass_state ps) (pass_cc ps) Hm Hok)
    as (cc2 & Hrun & Hlen2 & Hcc2).
  { rewrite Hl. apply (ok_counts_len _ _ Hok). }
  rewrite Hrun in Hx0. injection Hx0 as <-.
  destruct Hcc as [Hlen0 Hcc0].
  apply list_eq. intros t.
  destruct (decide (t < n_topics_ (model ev))%nat) as [Ht|Ht].
  - rewrite Hcc2, (Hcc0 t Ht). destruct (decide _) as [Hin|Hnin]; [done|].
    destruct (lookup_lt_is_Some_2 (topic_counts (pass_state ps)) t) as [c Hc].
    { rewrite (ok_counts_len _ _ Hok). done. }
    rewrite (Hco t c Hc).
    assert (c = 0) as ->.
    { destruct (decide (c = 0)); [done|]. exfalso. apply Hnin.
      apply (ok_members _ _ Hok). exists c. split; [done|].
      pose proof (Hcnt t c Hc) as Hocc. unfold occ in Hocc. lia. }
    unfold coefficient, zero_coefficient. by rewrite (Hlaw t Ht).
  - rewrite !lookup_ge_None_2 by lia. done.
Qed.

End PassInvariant.

(** ** The probabilities a pass records *)

Section WordProbabilities.
Context {F : Type} `{Arith F} {G : Type} `{Sampler F G}.
Implicit Types (m : Model F) (st : LocalState F) (cc : list F) (ps : @Pass F G).

Lemma in_vocab_count_snoc m types ty :
  in_vocab_count m (types ++ [ty])
  = (in_vocab_count m types + if out_of_vocabulary m ty then 0 else 1)%nat.
Proof.
  unfold in_vocab_count. rewrite filter_app, length_app, filter_cons, filter_nil.
  destruct (decide _) as [Hd|Hd]; destruct (out_of_vocabulary m ty); done.
Qed.

(** What the body of the outer loop does to the recorded probabilities. *)
Lemma process_position_wp m types resampling ps k ps' :
  process_position m types resampling ps k = Ok ps' ->
  exists ty, types !! k = Some ty /\
    if out_of_vocabulary m ty then
      word_probabilities ps' = word_probabilities ps /\
      tokens_so_far ps' = tokens_so_far ps
    else
      exists cc smp st prof st' old,
        resampling_sweep m types resampling ps k = Ok (cc, smp, st) /\
        at_ (type_topic_counts_ m) (Z.to_nat ty) = Ok prof /\
        update_topic_scores cc (set_type st ty prof) = Ok st' /\
        word_probabilities ps !! k = Some old /\
        word_probabilities ps'
        = <[k:=old +! total_mass m st'
                      /! (alpha_sum_ m +! of_int (Z.of_nat (tokens_so_far ps)))]>
            (word_probabilities ps) /\
        tokens_so_far ps' = S (tokens_so_far ps).
Proof.
  unfold process_position. intros Hr.
  inv_bind Hr. destruct x as [[cc smp] st].
  inv_bind Hr. rename x into ty. apply at_Ok in Hx0.
  exists ty. split; [done|].
  destruct (out_of_vocabulary m ty) eqn:Hoov.
  - by injection Hr as <-.
  - unfold score_frontier in Hr. cbn [pass_cc pass_state pass_sampler
      word_probabilities tokens_so_far] in Hr.
    inv_bind Hr. rename x into prof.
    inv_bind Hr. rename x into st1.
    inv_bind Hr. rename x into old. apply at_Ok in Hx3.
    inv_bind Hr. rename x into wp. apply set_at_Ok in Hx4 as [_ ->].
    inv_bind Hr. destruct x as [[nt smp2] st2].
    inv_bind Hr. destruct x as [cc3 st3]. injection Hr as <-.
    cbn [word_probabilities tokens_so_far].
    by exists cc, smp, st, prof, st1, old.
Qed.

Lemma run_positions_wp m types resampling cc0 smp0 k ps :
  (k <= length types)%nat ->
  run_positions m types resampling cc0 smp0 k = Ok ps ->
  length (word_probabilities ps) = length types /\
  tokens_so_far ps = in_vocab_count m (take k types) /\
  (forall i, (k <= i < length types)%nat -> word_probabilities ps !! i = Some f0) /\
  (forall i ty, (i < k)%nat -> types !! i = Some ty ->
     if out_of_vocabulary m ty then word_probabilities ps !! i = Some f0
     else exists v, word_probabilities ps !! i = Some v /\
                    recorded m types resampling cc0 smp0 i ty v).
Proof.
  revert ps. induction k as [|k IH]; intros ps Hk.
  - intros [= <-]. simpl. split_and!.
    + apply length_replicate.
    + done.
    + intros i Hi. apply lookup_replicate_2. lia.
    + intros i ty Hi. lia.
  - rewrite run_positions_S. intros Hr. inv_bind Hr. rename x into ps0.
    destruct (IH ps0) as (Hlen & Htsf & Hrest & Hdone); [lia|done|].
    destruct (process_position_wp _ _ _ _ _ _ Hr) as (ty & Hty & Hstep).
    rewrite (take_S_r _ _ _ Hty), in_vocab_count_snoc.
    destruct (out_of_vocabulary m ty) eqn:Hoov.
    + destruct Hstep as [-> ->]. split_and!; [done|lia|..].
      * intros i Hi. apply Hrest. lia.
      * intros i ty' Hi Hty'. destruct (decide (i = k)) as [->|Hne].
        -- rewrite Hty in Hty'. injection Hty' as <-. rewrite Hoov.
           apply Hrest. lia.
        -- apply Hdone; [lia|done].
    + destruct Hstep as (cc & smp & st & prof & st' & old & Hsw & Hprof & Hup & Hold & -> & ->).
      assert (old = f0) as ->.
      { rewrite Hrest in Hold by lia. by injection Hold. }
      split_and!.
      * by rewrite length_insert.
      * lia.
      * intros i Hi. rewrite list_lookup_insert_ne by lia. apply Hrest. lia.
      * intros i ty' Hi Hty'. destruct (decide (i = k)) as [->|Hne].
        -- rewrite Hty in Hty'. injection Hty' as <-. rewrite Hoov.
           rewrite list_lookup_insert_eq by lia. eexists. split; [done|].
           exists ps0, cc, smp, st, prof, st'. rewrite <- Htsf. by split_and!.
        -- rewrite list_lookup_insert_ne by lia. apply Hdone; [lia|done].
Qed.

Lemma get_word_probabilities_length (ev ev' : Evaluator F G) types resampling wp :
  get_word_probabilities ev types resampling = Ok (wp, ev') ->
  length wp = length types.
Proof.
  unfold get_word_probabilities. intros Hr.
  inv_bind Hr. inv_bind Hr. injection Hr as <- <-.
  by apply run_positions_wp in Hx as [? _].
Qed.

End WordProbabilities.

(** ** Documents without a single in-vocabulary token *)

Section OutOfVocabulary.
Context {F : Type} `{Arith F} {G : Type} `{Sampler F G}.
Implicit Types (m : Model F) (st : LocalState F) (cc : list F).







End OutOfVocabulary.

(** ** The averaging loop of the evaluator driver *)

Section Averaging.
Context {F : Type} `{Arith F} {G : Type} `{Sampler F G} `{!ZeroLaws F}.
Variable log : F -> F.
Implicit Types (ev : Evaluator F G) (pp : list (list F)).

Lemma add_position_skip n pp d position :
  sum_particles pp position f0 = Ok f0 ->
  add_position log n pp d position = Ok d.
Proof. unfold add_position. intros ->. simpl. by rewrite fltb_0_0. Qed.

Lemma sum_particles_beyond pp len position :
  Forall (fun v => length v = len) pp -> (len <= position)%nat ->
  sum_particles pp position f0 = Ok f0.
Proof.
  intros Hpp Hle. destruct pp as [|v pp]; [done|]. simpl.
  apply Forall_cons in Hpp as [Hv _]. rewrite Hv.
  destruct (Nat.leb_spec len position); [done|lia].
Qed.

Lemma positions_skip n pp d l :
  Forall (fun position => sum_particles pp position f0 = Ok f0) l ->
  foldM (add_position log n pp) l d = Ok d.
Proof.
  induction 1 as [|position l Hp Hl IH]; [done|]. simpl.
  by rewrite add_position_skip.
Qed.


Lemma run_particle_unfold types resampling ev pp max_len particle :
  run_particle types resampling (ev, pp, max_len) particle
  = match get_word_probabilities ev types resampling with
    | Ok (probs, ev') =>
        match set_at pp particle probs with
        | Ok pp' => Ok (ev', pp', Nat.max max_len (length probs))
        | OutOfRange => OutOfRange
        end
    | OutOfRange => OutOfRange
    end.
Proof.
  unfold run_particle.
  destruct (get_word_probabilities _ _ _) as [[probs ev']|]; [|done]. simpl.
  by destruct (set_at _ _ _).
Qed.

Lemma run_particles_shift types resampling : forall l ev pp max_len,
  foldM (run_particle types resampling) l (ev, pp, max_len)
  = bind (foldM (run_particle types resampling) l (ev, pp, O))
      (fun '(e, p, d) => Ok (e, p, Nat.max max_len d)).
Proof.
  induction l as [|particle l IH]; intros ev pp max_len.
  - simpl. by rewrite Nat.max_0_r.
  - cbn [foldM]. rewrite !run_particle_unfold.
    destruct (get_word_probabilities ev types resampling) as [[probs ev']|]; [|done].
    destruct (set_at pp particle probs) as [pp'|]; [|done]. cbn [bind].
    rewrite Nat.max_0_l.
    rewrite IH. rewrite (IH ev' pp' (length probs)).
    destruct (foldM _ l (ev', pp', O)) as [[[e p] d]|]; [|done]. simpl.
    by rewrite Nat.max_assoc.
Qed.

Lemma run_particles_shape types resampling n : forall j ev pp ev' pp' d,
  (j <= n)%nat -> length pp = n ->
  foldM (run_particle types resampling) (seq 0 j) (ev, pp, O) = Ok (ev', pp', d) ->
  length pp' = n /\ Forall (fun v => length v = length types) (take j pp') /\
  d = if j is O then O else length types.
Proof.
  induction j as [|j IH]; intros ev pp ev' pp' d Hj Hpp.
  - intros [= <- <- <-]. by split_and!.
  - rewrite seq_S, foldM_app. intros Hr. inv_bind Hr.
    destruct x as [[ev1 pp1] d1].
    destruct (IH _ _ _ _ _ ltac:(lia) Hpp Hx) as (Hlen1 & Hall1 & Hd1).
    cbn [foldM] in Hr. inv_bind Hr. injection Hr as ->.
    rewrite run_particle_unfold in Hx0. rewrite Nat.add_0_l in Hx0.
    destruct (get_word_probabilities ev1 types resampling) as [[probs ev2]|] eqn:Hg;
      [|done].
    destruct (set_at pp1 j probs) as [pp2|] eqn:Hs; [|done].
    injection Hx0 as <- <- <-.
    apply set_at_Ok in Hs as [Hlt ->].
    apply get_word_probabilities_length in Hg. rename Hg into Hx0.
    split_and!.
    + by rewrite length_insert.
    + rewrite (take_S_r _ _ probs) by (by apply list_lookup_insert_eq).
      rewrite take_insert_ge by lia. apply Forall_app. split; [done|].
      by apply Forall_singleton.
    + rewrite Hx0. destruct j; lia.
Qed.

Lemma evaluate_document_refines n resampling total ev pp max_len types :
  length pp = n -> (n = O -> max_len = O) ->
  match evaluate_document_ref log n resampling (total, ev, pp) types with
  | Ok (t, e, p) =>
      length p = n /\
      exists max_len', (n = O -> max_len' = O) /\
        evaluate_document log n resampling (total, ev, pp, max_len) types
        = Ok (t, e, p, max_len')
  | OutOfRange =>
      evaluate_document log n resampling (total, ev, pp, max_len) types
      = OutOfRange
  end.
Proof.
  intros Hpp Hml. unfold evaluate_document_ref, evaluate_document.
  rewrite (run_particles_shift types resampling (seq 0 n) ev pp max_len).
  destruct (foldM _ (seq 0 n) (ev, pp, O)) as [[[e p] d]|] eqn:Hrun; [|done].
  destruct (run_particles_shape _ _ n n _ _ _ _ _ ltac:(lia) Hpp Hrun)
    as (Hlen & Hall & Hd).
  rewrite take_ge in Hall by lia. cbn [bind].
  assert (Hloop : foldM (add_position log n p) (seq 0 (Nat.max max_len d)) f0
                  = foldM (add_position log n p) (seq 0 (length types)) f0).
  { destruct n as [|n'].
    - rewrite Hml, Hd by done. simpl.
      symmetry. apply positions_skip. apply Forall_forall. intros position _.
      destruct p; [done|]. simpl in Hlen. lia.
    - rewrite Hd.
      replace (Nat.max max_len (length types))
        with (length types + (Nat.max max_len (length types) - length types))%nat by lia.
      rewrite seq_app, foldM_app.
      destruct (foldM _ (seq 0 (length types)) f0) as [dl|]; [|done]. simpl.
      apply positions_skip. apply Forall_forall. intros position Hin.
      apply elem_of_seq in Hin. apply (sum_particles_beyond p (length types)); [done|lia]. }
  rewrite Hloop.
  destruct (foldM _ (seq 0 (length types)) f0) as [dl|]; [|done]. cbn [bind].
  split; [done|]. eexists. split; [|done].
  intros ->. rewrite Hml, Hd by done. done.
Qed.

Lemma evaluate_loop_refines n resampling : forall docs total ev pp max_len,
  length pp = n -> (n = O -> max_len = O) ->
  bind (foldM (evaluate_document log n resampling) docs (total, ev, pp, max_len))
    (fun '(t, e, _, _) => Ok (t, e))
  = bind (foldM (evaluate_document_ref log n resampling) docs (total, ev, pp))
      (fun '(t, e, _) => Ok (t, e)).
Proof.
  induction docs as [|types docs IH]; intros total ev pp max_len Hpp Hml; [done|].
  cbn [foldM].
  pose proof (evaluate_document_refines n resampling total ev pp max_len types Hpp Hml)
    as Hstep.
  destruct (evaluate_document_ref _ _ _ _ _) as [[[t e] p]|].
  - destruct Hstep as (Hlen & max_len' & Hml' & ->). cbn [bind]. by apply IH.
  - by rewrite Hstep.
Qed.

End Averaging.

(** ** Construction *)

Section Construction.
Context {F : Type} `{Arith F} {G : Type} `{Sampler F G}.

Lemma at_Ok_nth {A} (v : list A) i a d :
  at_ v i = Ok a -> (i < length v)%nat /\ a = nth i v d.
Proof.
  intros Ha%at_Ok. split; [by eapply lookup_lt_Some|].
  symmetry. by apply nth_lookup_Some.
Qed.

Lemma sum_over_S n (f : nat -> F) : sum_over (S n) f = sum_over n f +! f n.
Proof. unfold sum_over. by rewrite seq_S, fold_left_app. Qed.

Lemma init_loop (alpha : list F) beta (N : list Z) bs n : forall j mass cc,
  (j <= n)%nat ->
  foldM (init_topic alpha beta N bs) (seq 0 j) (f0, replicate n f0) = Ok (mass, cc) ->
  (j <= length alpha)%nat /\ (j <= length N)%nat /\ length cc = n /\
  (forall t, (t < j)%nat ->
     cc !! t = Some (nth t alpha f0 /! (of_int (nth t N 0) +! bs))) /\
  mass = sum_over j (fun t => nth t alpha f0 *! beta /! (of_int (nth t N 0) +! bs)).
Proof.
  induction j as [|j IH]; intros mass cc Hj.
  - intros [= <- <-]. split_and!; [lia|lia|apply length_replicate| |done].
    intros t Ht. lia.
  - rewrite seq_S, foldM_app. intros Hr. inv_bind Hr. destruct x as [mass1 cc1].
    destruct (IH _ _ ltac:(lia) Hx) as (Ha & HN & Hlen & Hcc & Hmass).
    cbn [foldM] in Hr. inv_bind Hr. injection Hr as ->.
    unfold init_topic in Hx0. rewrite Nat.add_0_l in Hx0.
    inv_bind Hx0. apply (at_Ok_nth _ _ _ 0) in Hx1 as [HjN ->].
    inv_bind Hx0. apply (at_Ok_nth _ _ _ f0) in Hx1 as [Hja ->].
    inv_bind Hx0. apply set_at_Ok in Hx1 as [Hjc ->].
    injection Hx0 as <- <-.
    split_and!; [lia|lia|by rewrite length_insert| |].
    + intros t Ht. destruct (decide (t = j)) as [->|Hne].
      * by rewrite list_lookup_insert_eq by lia.
      * rewrite list_lookup_insert_ne by done. apply Hcc. lia.
    + by rewrite sum_over_S, Hmass.
Qed.

(** What the constructor establishes. *)
Lemma constructor_spec n (alpha : list F) beta N ttc (smp : G) ev :
  LeftToRightEvaluator n alpha beta N ttc smp = Ok ev ->
  n_topics_ (model ev) = n /\ alpha_ (model ev) = alpha /\
  beta_ (model ev) = beta /\ topic_counts_ (model ev) = N /\
  type_topic_counts_ (model ev) = ttc /\
  beta_sum_ (model ev) = of_int (Z.of_nat n) *! beta /\
  alpha_sum_ (model ev) = fold_left fadd alpha f0 /\
  sampler_ ev = smp /\
  model_ok (model ev) /\
  cc_zero (model ev) (cached_coefficients_ ev) /\
  smoothing_only_mass_ (model ev) = sum_over n (prior_mass (model ev)).
Proof.
  unfold LeftToRightEvaluator. intros Hr. inv_bind Hr. destruct x as [mass cc].
  injection Hr as <-. cbn.
  destruct (init_loop _ _ _ _ n n mass cc ltac:(lia) Hx) as (Ha & HN & Hlen & Hcc & Hmass).
  split_and!; done.
Qed.

End Construction.

(** ** What a one-unit operation changes *)

Section OpInversion.
Context {F : Type} `{Arith F}.
Implicit Types (m : Model F) (st : LocalState F) (cc : list F).

Lemma set_index_same st :
  set_index st (topic_index st) (dense_index st) (non_zero_topics st) = st.
Proof. by destruct st. Qed.

Lemma maintain_dense_index_addition_frame st t st' :
  maintain_dense_index_addition st t = Ok st' ->
  exists ti di nz, st' = set_index st ti di nz.
Proof.
  unfold maintain_dense_index_addition. intros Hr. inv_bind Hr.
  destruct (x =? 1).
  - inv_bind Hr. destruct x0 as [ti di]. inv_bind Hr. injection Hr as <-. eauto.
  - injection Hr as <-. eexists _, _, _. symmetry. apply set_index_same.
Qed.

Lemma maintain_dense_index_elimination_frame st t st' :
  maintain_dense_index_elimination st t = Ok st' ->
  exists ti di nz, st' = set_index st ti di nz.
Proof.
  unfold maintain_dense_index_elimination. intros Hr. inv_bind Hr.
  destruct (x =? 0).
  - do 2 inv_bind Hr. injection Hr as <-. eauto.
  - injection Hr as <-. eexists _, _, _. symmetry. apply set_index_same.
Qed.

(** Whenever a one-unit operation returns, it has changed the count of its
    topic by one, recomputed the topic's cached coefficient, moved the
    topic's share of the topic-beta mass, and touched the dense index. *)
Lemma add_or_remove_inv m cc st t incr cc' st' :
  add_or_remove_topic_and_update_state_and_coefficients m cc st t incr
  = Ok (cc', st') ->
  exists c ti di nz,
    topic_counts st !! t = Some c /\ (t < length cc)%nat /\
    let c' := if incr then c + 1 else c - 1 in
    let denom := of_int (nth t (topic_counts_ m) 0) +! beta_sum_ m in
    cc' = <[t:=coefficient m t c']> cc /\
    st' = set_index
            (set_counts st (<[t:=c']> (topic_counts st))
               (topic_beta_mass st -! beta_ m *! of_int c /! denom
                +! beta_ m *! of_int c' /! denom)) ti di nz.
Proof.
  unfold add_or_remove_topic_and_update_state_and_coefficients. intros Hr.
  inv_bind Hr. apply (at_Ok_nth _ _ _ 0) in Hx as [_ ->].
  inv_bind Hr. rename x into c. apply at_Ok in Hx.
  inv_bind Hr. apply set_at_Ok in Hx0 as [_ ->].
  inv_bind Hr. apply (at_Ok_nth _ _ _ f0) in Hx0 as [_ ->].
  inv_bind Hr. apply set_at_Ok in Hx0 as [Hlt ->].
  inv_bind Hr. injection Hr as <- <-.
  assert (exists ti di nz, x = set_index
            (set_counts st (<[t:=if incr then c + 1 else c - 1]> (topic_counts st))
               (topic_beta_mass st
                -! beta_ m *! of_int c /! (of_int (nth t (topic_counts_ m) 0) +! beta_sum_ m)
                +! beta_ m *! of_int (if incr then c + 1 else c - 1)
                   /! (of_int (nth t (topic_counts_ m) 0) +! beta_sum_ m))) ti di nz)
    as (ti & di & nz & ->).
  { destruct incr.
    - by apply maintain_dense_index_addition_frame in Hx0.
    - by apply maintain_dense_index_elimination_frame in Hx0. }
  exists c, ti, di, nz. by split_and!.
Qed.

End OpInversion.

(** ** The three mass buckets *)

Section MassBuckets.
Context {F : Type} `{Arith F}.
Implicit Types (m : Model F) (st : LocalState F) (cc : list F).

Lemma walk_profile_spec cc : forall profile index mass scores,
  walk_profile cc profile index mass scores
  = if decide (length (profile_prefix profile) <= length cc - index /\
               length (profile_prefix profile) <= length scores - index)%nat
    then Ok (fold_left fadd (prefix_scores (drop index cc) profile) mass,
             take index scores ++ prefix_scores (drop index cc) profile
               ++ drop (index + length (profile_prefix profile)) scores)
    else OutOfRange.
Proof.
  unfold prefix_scores.
  induction profile as [|v profile IH]; intros index mass scores;
    cbn [walk_profile profile_prefix].
  - cbn [length]. rewrite decide_True by lia.
    rewrite Nat.add_0_r, zip_with_nil_r. cbn [fold_left app].
    by rewrite take_drop.
  - destruct (0 <? v); cbn [length].
    2:{ rewrite decide_True by lia.
        rewrite Nat.add_0_r, zip_with_nil_r. cbn [fold_left app].
        by rewrite take_drop. }
    unfold at_. destruct (cc !! index) as [c|] eqn:Hc; cbn [bind].
    2:{ apply lookup_ge_None_1 in Hc. rewrite decide_False by lia. done. }
    pose proof (lookup_lt_Some _ _ _ Hc) as Hlt.
    unfold set_at. destruct (scores !! index) as [s|] eqn:Hs; cbn [bind].
    2:{ apply lookup_ge_None_1 in Hs. rewrite decide_False by lia. done. }
    pose proof (lookup_lt_Some _ _ _ Hs) as Hlt'.
    rewrite IH, length_insert.
    destruct (decide (_ /\ _)) as [Hd|Hd].
    + rewrite decide_True by lia.
      rewrite (drop_S cc c index Hc). cbn [zip_with fold_left].
      f_equal. f_equal.
      rewrite (take_S_r _ index (c *! of_int v))
        by (by rewrite list_lookup_insert_eq).
      rewrite take_insert_ge by lia.
      rewrite drop_insert_lt by lia.
      rewrite <- app_assoc. cbn [app].
      by rewrite Nat.add_succ_r.
    + rewrite decide_False by lia. done.
Qed.

Lemma fold_left_fadd_map {A} (h : A -> F) : forall l a,
  fold_left fadd (map h l) a = fold_left (fun acc t => acc +! h t) l a.
Proof. induction l as [|t l IH]; intros a; [done|]. apply IH. Qed.

(** The scores of a word, from the coefficients of its leading topics. *)
Lemma prefix_scores_map cc profile (g : nat -> F) :
  (forall t, (t < length (profile_prefix profile))%nat -> cc !! t = Some (g t)) ->
  prefix_scores cc profile
  = map (fun t => g t *! of_int (nth t (profile_prefix profile) 0))
      (seq 0 (length (profile_prefix profile))).
Proof.
  intros Hcc. unfold prefix_scores. apply list_eq. intros t.
  rewrite lookup_zip_with, list_lookup_fmap.
  destruct (decide (t < length (profile_prefix profile))%nat) as [Hlt|Hge].
  - rewrite Hcc by done.
    destruct (lookup_lt_is_Some_2 _ _ Hlt) as [v Hv].
    rewrite Hv, lookup_seq_lt by done. cbn.
    by rewrite (nth_lookup_Some _ _ 0 v Hv).
  - rewrite (lookup_ge_None_2 (profile_prefix profile)) by lia.
    rewrite lookup_seq_ge by lia. cbn. by destruct (cc !! t).
Qed.

Lemma prefix_scores_sum cc profile (g : nat -> F) :
  (forall t, (t < length (profile_prefix profile))%nat -> cc !! t = Some (g t)) ->
  fold_left fadd (prefix_scores cc profile) f0
  = sum_over (length (profile_prefix profile))
      (fun t => g t *! of_int (nth t (profile_prefix profile) 0)).
Proof.
  intros Hcc. rewrite (prefix_scores_map cc profile g Hcc).
  apply fold_left_fadd_map.
Qed.


End MassBuckets.

(** ** The evaluator leaves the coefficient cache as it found it *)

Section Preservation.
Context {F : Type} `{Arith F} {G : Type} `{Sampler F G}.
Variable log : F -> F.
Implicit Types (ev : Evaluator F G) (pp : list (list F)).

Lemma run_particles_preserve types resampling : forall l ev pp max_len ev' pp' max_len',
  pristine ev ->
  foldM (run_particle types resampling) l (ev, pp, max_len) = Ok (ev', pp', max_len') ->
  model ev' = model ev /\ cached_coefficients_ ev' = cached_coefficients_ ev.
Proof.
  induction l as [|particle l IH]; intros ev pp max_len ev' pp' max_len' Hp.
  - by intros [= <- <- <-].
  - cbn [foldM]. intros Hr. inv_bind Hr. destruct x as [[ev1 pp1] max_len1].
    rewrite run_particle_unfold in Hx.
    destruct (get_word_probabilities ev types resampling) as [[probs ev2]|] eqn:Hg;
      [|done].
    destruct (set_at pp particle probs) as [pp2|]; [|done].
    injection Hx as <- <- <-.
    destruct Hp as (Hm & Hcc & Hlaw).
    destruct (get_word_probabilities_restores _ _ _ _ _ Hm Hcc Hlaw Hg) as [Hmod Hc].
    destruct (IH _ _ _ _ _ _ ltac:(by unfold pristine; rewrite Hmod, Hc) Hr) as [-> ->].
    done.
Qed.

Lemma evaluate_document_preserves n resampling total ev pp max_len types total' ev' pp' max_len' :
  pristine ev ->
  evaluate_document log n resampling (total, ev, pp, max_len) types
  = Ok (total', ev', pp', max_len') ->
  model ev' = model ev /\ cached_coefficients_ ev' = cached_coefficients_ ev.
Proof.
  intros Hp. unfold evaluate_document. intros Hr.
  inv_bind Hr. destruct x as [[ev1 pp1] max_len1].
  inv_bind Hr. injection Hr as <- <- <- <-.
  by eapply run_particles_preserve.
Qed.

Lemma evaluate_preserves ev docs n resampling total ev' :
  pristine ev ->
  evaluate log ev docs n resampling = Ok (total, ev') ->
  model ev' = model ev /\ cached_coefficients_ ev' = cached_coefficients_ ev.
Proof.
  unfold evaluate. generalize (replicate n (@nil F)) O (@f0 F _).
  intros pp max_len total0 Hp Hr. inv_bind Hr.
  destruct x as [[[t e] p] ml]. injection Hr as <- <-.
  revert total0 ev pp max_len Hp Hx.
  induction docs as [|types docs IH]; intros total0 ev pp max_len Hp.
  - by intros [= <- <- <- <-].
  - cbn [foldM]. intros Hr. inv_bind Hr. destruct x as [[[t1 e1] p1] ml1].
    destruct (evaluate_document_preserves _ _ _ _ _ _ _ _ _ _ _ Hp Hx) as [Hmod Hc].
    destruct (IH _ _ _ _ ltac:(by unfold pristine; rewrite Hmod, Hc) Hr) as [-> ->].
    done.
Qed.

End Preservation.

(** * The properties of the specification *)

Section Claims.
Context {F : Type} `{Arith F} {G : Type} `{Sampler F G}.
Implicit Types (m : Model F) (st : LocalState F) (cc : list F)
  (ev : Evaluator F G).

(** C1.  When [get_word_probabilities] returns, the sequence it returns is
    as long as the document; a position whose token is out of vocabulary
    holds 0; and a position [limit] whose token is in vocabulary holds
    [0 + (smoothing_only_mass + topic_beta_mass + topic_term_mass) /
    (alpha_sum + tokens_so_far)], the masses being those of the state in
    which the position is scored (after the sweep and the update of the
    topic scores) and [tokens_so_far] being the number of in-vocabulary
    tokens strictly before [limit] (see [recorded]). *)
Theorem get_word_probabilities_records ev ev' types resampling wp :
  get_word_probabilities ev types resampling = Ok (wp, ev') ->
  length wp = length types /\
  forall limit ty, types !! limit = Some ty ->
    if out_of_vocabulary (model ev) ty then wp !! limit = Some f0
    else exists v, wp !! limit = Some v /\
           recorded (model ev) types resampling
             (cached_coefficients_ ev) (sampler_ ev) limit ty v.
Proof.
  unfold get_word_probabilities. intros Hr.
  inv_bind Hr. rename x into ps. inv_bind Hr. injection Hr as <- <-.
  destruct (run_positions_wp _ _ _ _ _ _ _ (Nat.le_refl _) Hx)
    as (Hlen & _ & _ & Hdone).
  split; [done|]. intros limit ty Hty. apply Hdone; [|done].
  by eapply lookup_lt_Some.
Qed.

(** C3.  For an evaluator whose vectors cover every topic (as the
    constructor leaves it): from the all-zero local state, after every
    sequence of one-unit add and remove operations on the local counts
    (each operation names an existing topic, and each removal takes a unit
    that is there, as the removal of the topic that a position carries
    does), the operations all return, the dense active-topic list is the
    ascending list of the topics whose local count is nonzero, without
    duplicates, and [non_zero_topics] is its length. *)
Theorem dense_index_invariant m cc doc_length ops :
  model_ok m -> length cc = n_topics_ m ->
  legal_ops (replicate (n_topics_ m) 0) ops = true ->
  exists cc' st',
    run_ops m cc (fresh_state m doc_length) ops = Ok (cc', st') /\
    active st' = nonzero_topics st' /\
    StronglySorted lt (active st') /\ NoDup (active st') /\
    non_zero_topics st' = length (active st').
Proof.
  intros Hm Hcc Hlegal.
  destruct (run_ops_spec m ops cc (fresh_state m doc_length) Hm
              (index_ok_fresh m doc_length) Hcc)
    as (cc' & st' & Hrun & Hok & _ & Hnn); [by apply Forall_replicate|done|].
  exists cc', st'. split_and!.
  - done.
  - rewrite (active_eq_positive _ _ Hok). by apply positive_eq_nonzero.
  - apply (ok_sorted _ _ Hok).
  - apply StronglySorted_lt_NoDup, (ok_sorted _ _ Hok).
  - symmetry. by eapply active_length.
Qed.

(** C5.  When [sample_new_topic] returns -1, the resampling sweep adds the
    previous topic of the position back, and the scoring of the frontier
    position adds the last topic, [n_topics - 1]. *)
Theorem failed_draw_falls_back m types :
  (forall cc smp st position ty prof old_topic cc1 st1 st2 smp' st3,
     at_ types position = Ok ty -> out_of_vocabulary m ty = false ->
     at_ (type_topic_counts_ m) (Z.to_nat ty) = Ok prof ->
     at_ (doc_topics st) position = Ok old_topic ->
     remove_topic_and_update_state_and_coefficients m cc
       (set_type st ty prof) old_topic = Ok (cc1, st1) ->
     update_topic_scores cc1 st1 = Ok st2 ->
     sample_new_topic m smp st2 = Ok (-1, smp', st3) ->
     Z.of_nat old_topic < 2 ^ 32 ->
     resample_position m types (cc, smp, st) position
     = bind (add_topic_and_update_state_and_coefficients m cc1 st3
               old_topic position)
         (fun '(cc', st') => Ok (cc', smp', st'))) /\
  (forall ty limit (ps : @Pass F G) prof st1 old smp' st2,
     at_ (type_topic_counts_ m) (Z.to_nat ty) = Ok prof ->
     update_topic_scores (pass_cc ps) (set_type (pass_state ps) ty prof) = Ok st1 ->
     at_ (word_probabilities ps) limit = Ok old ->
     sample_new_topic m (pass_sampler ps) st1 = Ok (-1, smp', st2) ->
     0 < Z.of_nat (n_topics_ m) <= 2 ^ 32 ->
     score_frontier m ty limit ps
     = bind (add_topic_and_update_state_and_coefficients m (pass_cc ps) st2
               (n_topics_ m - 1) limit)
         (fun '(cc', st') =>
            Ok {| pass_cc := cc'; pass_sampler := smp'; pass_state := st';
                  word_probabilities :=
                    <[limit:=old +! total_mass m st1
                               /! (alpha_sum_ m
                                   +! of_int (Z.of_nat (tokens_so_far ps)))]>
                      (word_probabilities ps);
                  tokens_so_far := S (tokens_so_far ps) |})).
Proof.
  split.
  - intros cc smp st position ty prof old_topic cc1 st1 st2 smp' st3
      Hty Hoov Hprof Hold Hrem Hup Hsample Hrange.
    unfold resample_position. rewrite Hty. cbn [bind]. rewrite Hoov, Hprof.
    cbn [bind]. cbn [doc_topics set_type]. rewrite Hold. cbn [bind].
    rewrite Hrem. cbn [bind]. rewrite Hup. cbn [bind]. rewrite Hsample.
    cbn [bind]. rewrite Z.eqb_refl.
    assert (to_uint (Z.of_nat old_topic) = old_topic) as ->.
    { unfold to_uint. rewrite Z.mod_small by lia. apply Nat2Z.id. }
    done.
  - intros ty limit ps prof st1 old smp' st2 Hprof Hup Hold Hsample Hrange.
    unfold score_frontier. rewrite Hprof. cbn [bind]. rewrite Hup. cbn [bind].
    rewrite Hold. cbn [bind].
    rewrite set_at_lt by (apply at_Ok in Hold; by eapply lookup_lt_Some).
    cbn [bind]. rewrite Hsample. cbn [bind]. rewrite Z.eqb_refl.
    assert (to_uint (Z.of_nat (n_topics_ m) - 1) = (n_topics_ m - 1)%nat) as ->.
    { unfold to_uint. rewrite Z.mod_small by lia. lia. }
    done.
Qed.

(** C7.  When [get_word_probabilities] returns, on an evaluator whose
    coefficient cache is as construction left it, every cached coefficient
    is again [alpha[topic] / (topic_counts[topic] + beta_sum)]: the cache
    is identical to its state at construction, also for the topics that
    were touched and have left the active set. *)
Theorem coefficients_restored n alpha beta N ttc (smp0 : G) ev0 ev ev'
  types resampling wp :
  LeftToRightEvaluator n alpha beta N ttc smp0 = Ok ev0 ->
  priors_plain (model ev0) ->
  model ev = model ev0 ->
  cached_coefficients_ ev = cached_coefficients_ ev0 ->
  get_word_probabilities ev types resampling = Ok (wp, ev') ->
  cached_coefficients_ ev' = cached_coefficients_ ev0 /\
  forall t, (t < n)%nat ->
    cached_coefficients_ ev' !! t
    = Some (nth t alpha f0
            /! (of_int (nth t N 0) +! of_int (Z.of_nat n) *! beta)).
Proof.
  intros Hctor Hlaw Hmod Hcc Hrun.
  destruct (constructor_spec _ _ _ _ _ _ _ Hctor)
    as (Hn & Ha & Hb & HN & _ & Hbs & _ & _ & Hm & Hzero & _).
  destruct (get_word_probabilities_restores ev ev' types resampling wp)
    as [_ Hres]; [by rewrite Hmod|by rewrite Hmod, Hcc|by rewrite Hmod|done|].
  rewrite Hres, Hcc. split; [done|].
  intros t Ht. destruct Hzero as [_ Hz]. rewrite Hz by lia.
  unfold zero_coefficient. by rewrite Ha, HN, Hbs.
Qed.

(** C8.  On a local state with a well-formed dense index (the dense list is
    the ascending list of the topics with a positive count) whose
    cached coefficient of [topic] is the one of its local count, adding one
    unit of [topic] at a position and then removing one unit of [topic]
    both return and restore the local counts, the dense active-topic list
    with its length, and the coefficient cache. *)
Theorem add_then_remove_restores m cc st topic position c :
  model_ok m -> index_ok (n_topics_ m) st -> length cc = n_topics_ m ->
  topic_counts st !! topic = Some c ->
  cc !! topic = Some (coefficient m topic c) ->
  (position < length (doc_topics st))%nat ->
  exists cc1 st1 cc2 st2,
    add_topic_and_update_state_and_coefficients m cc st topic position
    = Ok (cc1, st1) /\
    remove_topic_and_update_state_and_coefficients m cc1 st1 topic
    = Ok (cc2, st2) /\
    topic_counts st2 = topic_counts st /\
    active st2 = active st /\
    non_zero_topics st2 = non_zero_topics st /\
    cc2 = cc.
Proof.
  intros Hm Hok Hlen Hc Hcoef Hpos.
  unfold add_topic_and_update_state_and_coefficients,
    remove_topic_and_update_state_and_coefficients.
  rewrite set_at_lt by done. cbn [bind].
  set (st0 := set_doc_topics st (<[position:=topic]> (doc_topics st))).
  assert (Hok0 : index_ok (n_topics_ m) st0) by (by apply (index_ok_ext _ st)).
  destruct (add_or_remove_spec m cc st0 topic true c Hm Hok0 Hlen Hc)
    as (ti1 & di1 & nz1 & Hadd & Hok1).
  cbn zeta in Hadd, Hok1.
  set (st1 := set_index _ ti1 di1 nz1) in *.
  pose proof (lookup_lt_Some _ _ _ Hc) as Ht.
  assert (Hc1 : topic_counts st1 !! topic = Some (c + 1)).
  { subst st1 st0. cbn [topic_counts set_index set_counts set_doc_topics].
    by apply list_lookup_insert_eq. }
  destruct (add_or_remove_spec m (<[topic:=coefficient m topic (c + 1)]> cc)
              st1 topic false (c + 1) Hm Hok1)
    as (ti2 & di2 & nz2 & Hrem & Hok2);
    [by rewrite length_insert|done|].
  cbn zeta in Hrem, Hok2.
  set (st2 := set_index _ ti2 di2 nz2) in *.
  assert (Hcounts : topic_counts st2 = topic_counts st).
  { subst st2 st1 st0. cbn [topic_counts set_index set_counts set_doc_topics].
    rewrite list_insert_insert_eq. replace (c + 1 - 1) with c by lia.
    by apply list_insert_id. }
  assert (Hact : active st2 = active st).
  { rewrite (active_eq_positive _ _ Hok2), (active_eq_positive _ _ Hok).
    unfold positive_topics. by rewrite Hcounts. }
  eexists _, _, _, _. split_and!; [exact Hadd|exact Hrem|done|done|..].
  - rewrite <- (active_length _ _ Hok2), <- (active_length _ _ Hok). by rewrite Hact.
  - rewrite list_insert_insert_eq. replace (c + 1 - 1) with c by lia.
    by apply list_insert_id.
Qed.

End Claims.

#[export] Instance binary64_zero_laws : ZeroLaws float.
Proof. split; reflexivity. Qed.

Section DriverClaims.
Context {F : Type} `{Arith F} {G : Type} `{Sampler F G} `{!ZeroLaws F}.
Variable log : F -> F.
Implicit Types (ev : Evaluator F G) (pp : list (list F)).


(** C9.  [evaluate] returns what the reference driver returns, in which the
    averaging loop of each document runs over that document's own positions
    only. *)
Theorem evaluate_refines_reference ev types n resampling :
  evaluate log ev types n resampling = evaluate_ref log ev types n resampling.
Proof.
  unfold evaluate, evaluate_ref.
  apply evaluate_loop_refines; [apply length_replicate|done].
Qed.

End DriverClaims.

Section Determinism.
Context {F : Type} `{Arith F} {G : Type} `{Sampler F G}.
Variable log : F -> F.

(** C10.  The output of [evaluate] is a function of the constructed model,
    the documents and the draw sequence: a second run on the evaluator that
    the first run leaves behind, with the sampler rewound to the same
    sequence of draws, returns what the first run returned, for every
    particle count and with or without resampling (in particular for one
    particle, without resampling, on one document). *)
Theorem evaluate_repeatable n alpha beta N ttc (smp : G) ev docs n_particles
  resampling total ev1 :
  LeftToRightEvaluator n alpha beta N ttc smp = Ok ev ->
  priors_plain (model ev) ->
  evaluate log ev docs n_particles resampling = Ok (total, ev1) ->
  evaluate log
    {| model := model ev1; cached_coefficients_ := cached_coefficients_ ev1;
       sampler_ := smp |} docs n_particles resampling
  = Ok (total, ev1).
Proof.
  intros Hctor Hlaw Hrun.
  destruct (constructor_spec _ _ _ _ _ _ _ Hctor)
    as (_ & _ & _ & _ & _ & _ & _ & Hsmp & Hm & Hzero & _).
  destruct (evaluate_preserves log ev docs n_particles resampling total ev1)
    as [-> ->]; [by split_and!|done|].
  rewrite <- Hsmp. by destruct ev.
Qed.

End Determinism.


(** ** A bucket whose candidates are used up *)

Section ExhaustedBuckets.
Context {F : Type} `{Arith F}.

(** The beta bucket yields -1 once its loop has run out of rounds. *)
Lemma beta_scan_exhausted (m : Model F) st di sample :
  beta_scan m st 0 di sample = Ok (-1, di).
Proof. reflexivity. Qed.

(** The term bucket and the smoothing-only bucket do not: with a positive
    remainder and no candidate left, the next [at] is out of range. *)
Lemma term_scan_exhausted topic (sample : F) :
  f0 <! sample = true -> term_scan [] topic sample = OutOfRange.
Proof. intros Hpos. simpl. by rewrite Hpos. Qed.

Lemma smoothing_scan_exhausted (m : Model F) new_topic (sample : F) :
  f0 <! sample = true -> smoothing_scan m [] new_topic sample = OutOfRange.
Proof. intros Hpos. simpl. by rewrite Hpos. Qed.

End ExhaustedBuckets.

(** ** The scenarios are what the constructor builds *)

Lemma worked_constructed :
  LeftToRightEvaluator 2 [0.125; 0.125]%float 0.015625%float [5; 5]
    [[3; 0]; [2; 1; 0]] (stub worked_draws) = Ok worked_ev.
Proof. vm_compute. reflexivity. Qed.

Lemma residue_constructed :
  LeftToRightEvaluator 9
    [1; 0x1.8p-53; 0x1.8p-53; 0x1.8p-53; 0x1.8p-53; 0x1.8p-53;
     0x1.8p-53; 0x1.8p-53; 0x1.8p-53]%float
    0x1p-60%float [1; 1; 1; 1; 1; 1; 1; 1; 1]
    [[1; 1; 1; 1; 1; 1; 1; 1; 1; 0]; [0]]
    (stub [0x1.fffffffffffffp-1%float]) = Ok residue_ev.
Proof. vm_compute. reflexivity. Qed.

Lemma worked_model_ok : model_ok (model worked_ev).
Proof. split; vm_compute; lia. Qed.

Lemma worked_priors_plain : priors_plain (model worked_ev).
Proof. intros [|[|t]] Ht; [reflexivity|reflexivity|simpl in Ht; lia]. Qed.

(** C4.  The model is well formed (non-negative priors, positive [beta],
    non-negative counts) and the draw lies in [0,1).  For the first word the
    scaled draw falls into the term bucket, for the second into the
    smoothing-only bucket; in both, rounding leaves the remainder positive
    after the last candidate, and [sample_new_topic] does not return -1:
    the next [at] is out of range, and [evaluate] ends with that
    exception. *)
Example residue_exhausts_bucket :
  (fst (next (sampler_ residue_ev)) *! total_mass (model residue_ev) (residue_state 0)
     <! topic_term_mass (residue_state 0)) = true /\
  sample_new_topic (model residue_ev) (sampler_ residue_ev) (residue_state 0)
  = OutOfRange /\
  sample_new_topic (model residue_ev) (sampler_ residue_ev) (residue_state 1)
  = OutOfRange /\
  (forall log resampling,
     evaluate log residue_ev [[0]] 1 resampling = OutOfRange) /\
  (forall log resampling,
     evaluate log residue_ev [[1]] 1 resampling = OutOfRange).
Proof.
  split; [vm_compute; reflexivity|].
  split; [vm_compute; reflexivity|].
  split; [vm_compute; reflexivity|].
  split; intros log [|]; vm_compute; reflexivity.
Qed.


(** * Executions

    Each property that has a premise, applied to one of the scenarios. *)

Lemma get_word_probabilities_records_witness :
  exists wp ev',
    get_word_probabilities worked_ev [1; 7; 1; 0] true = Ok (wp, ev') /\
    length wp = 4%nat /\
    wp !! 1%nat = Some 0%float /\
    exists v, wp !! 2%nat = Some v /\
      recorded (model worked_ev) [1; 7; 1; 0] true
        (cached_coefficients_ worked_ev) (sampler_ worked_ev) 2 1 v.
Proof.
  destruct (get_word_probabilities worked_ev [1; 7; 1; 0] true)
    as [[wp ev']|] eqn:Hrun; [|vm_compute in Hrun; discriminate].
  exists wp, ev'. split; [reflexivity|].
  destruct (get_word_probabilities_records worked_ev ev' _ _ wp Hrun)
    as [Hlen Hpos].
  split; [exact Hlen|]. split.
  - exact (Hpos 1%nat 7 eq_refl).
  - exact (Hpos 2%nat 1 eq_refl).
Defined.


Lemma dense_index_invariant_witness :
  exists cc' st',
    run_ops (model worked_ev) (cached_coefficients_ worked_ev)
      (fresh_state (model worked_ev) 3)
      [(1%nat, true); (0%nat, true); (1%nat, true); (1%nat, false);
       (0%nat, false)]
    = Ok (cc', st') /\
    active st' = nonzero_topics st' /\
    non_zero_topics st' = length (active st').
Proof.
  destruct (dense_index_invariant (model worked_ev)
              (cached_coefficients_ worked_ev) 3
              [(1%nat, true); (0%nat, true); (1%nat, true); (1%nat, false);
               (0%nat, false)])
    as (cc' & st' & Hrun & Hact & _ & _ & Hnz).
  - exact worked_model_ok.
  - reflexivity.
  - reflexivity.
  - exists cc', st'. split; [exact Hrun|]. split; [exact Hact|exact Hnz].
Defined.

Lemma failed_draw_falls_back_witness :
  (exists cc smp st,
     resample_position (model zero_ev) [0; 0]
       (pass_cc zero_pass, pass_sampler zero_pass, pass_state zero_pass) 0
     = Ok (cc, smp, st) /\ doc_topics st = [1%nat; 0%nat]) /\
  (exists ps,
     score_frontier (model zero_ev) 0 0
       (start_pass (model zero_ev) (cached_coefficients_ zero_ev)
          (sampler_ zero_ev) 2)
     = Ok ps /\ doc_topics (pass_state ps) = [1%nat; 0%nat]).
Proof.
  split.
  - eexists _, _, _.
    erewrite (proj1 (failed_draw_falls_back (model zero_ev) [0; 0])
                (pass_cc zero_pass) (pass_sampler zero_pass)
                (pass_state zero_pass) 0%nat 0 [3; 0] 1%nat); cycle 1.
    + reflexivity.
    + reflexivity.
    + reflexivity.
    + reflexivity.
    + vm_compute. reflexivity.
    + vm_compute. reflexivity.
    + vm_compute. reflexivity.
    + vm_compute. reflexivity.
    + vm_compute. split; reflexivity.
  - eexists.
    erewrite (proj2 (failed_draw_falls_back (model zero_ev) [0; 0])
                0 0%nat _ [3; 0]); cycle 1.
    + reflexivity.
    + vm_compute. reflexivity.
    + vm_compute. reflexivity.
    + vm_compute. reflexivity.
    + vm_compute. split; [reflexivity|discriminate].
    + vm_compute. split; reflexivity.
Defined.


Lemma coefficients_restored_witness :
  exists wp ev',
    get_word_probabilities worked_ev [1; 7; 1; 0] true = Ok (wp, ev') /\
    cached_coefficients_ ev' = cached_coefficients_ worked_ev.
Proof.
  destruct (get_word_probabilities worked_ev [1; 7; 1; 0] true)
    as [[wp ev']|] eqn:Hrun; [|vm_compute in Hrun; discriminate].
  exists wp, ev'. split; [reflexivity|].
  exact (proj1 (coefficients_restored 2 [0.125; 0.125]%float 0.015625%float
                  [5; 5] [[3; 0]; [2; 1; 0]] (stub worked_draws) worked_ev
                  worked_ev ev' [1; 7; 1; 0] true wp worked_constructed
                  worked_priors_plain eq_refl eq_refl Hrun)).
Defined.

Lemma add_then_remove_restores_witness :
  exists cc1 st1 cc2 st2,
    add_topic_and_update_state_and_coefficients (model worked_ev)
      (cached_coefficients_ worked_ev) (fresh_state (model worked_ev) 3) 1 0
    = Ok (cc1, st1) /\
    remove_topic_and_update_state_and_coefficients (model worked_ev) cc1 st1 1
    = Ok (cc2, st2) /\
    topic_counts st2 = [0; 0] /\ active st2 = [] /\
    non_zero_topics st2 = 0%nat /\ cc2 = cached_coefficients_ worked_ev.
Proof.
  exact (add_then_remove_restores (model worked_ev)
           (cached_coefficients_ worked_ev) (fresh_state (model worked_ev) 3)
           1 0 0 worked_model_ok (index_ok_fresh (model worked_ev) 3)
           eq_refl eq_refl eq_refl ltac:(simpl; lia)).
Defined.

Lemma evaluate_refines_reference_witness :
  evaluate log1 worked_ev [[1; 7; 1; 0]; [0]; [-1; 9]] 2 true
  = evaluate_ref log1 worked_ev [[1; 7; 1; 0]; [0]; [-1; 9]] 2 true.
Proof.
  exact (@evaluate_refines_reference float binary64 (Replay float)
           replay_sampler binary64_zero_laws log1 worked_ev
           [[1; 7; 1; 0]; [0]; [-1; 9]] 2%nat true).
Defined.

Lemma evaluate_repeatable_witness :
  exists total ev1,
    evaluate log1 worked_ev [[1; 7; 1; 0]] 1 false = Ok (total, ev1) /\
    evaluate log1
      {| model := model ev1; cached_coefficients_ := cached_coefficients_ ev1;
         sampler_ := stub worked_draws |} [[1; 7; 1; 0]] 1 false
    = Ok (total, ev1).
Proof.
  destruct (evaluate log1 worked_ev [[1; 7; 1; 0]] 1 false)
    as [[total ev1]|] eqn:Hrun; [|vm_compute in Hrun; discriminate].
  exists total, ev1. split; [reflexivity|].
  exact (evaluate_repeatable log1 2 [0.125; 0.125]%float 0.015625%float
           [5; 5] [[3; 0]; [2; 1; 0]] (stub worked_draws) worked_ev
           [[1; 7; 1; 0]] 1 false total ev1 worked_constructed
           worked_priors_plain Hrun).
Defined.

(** * Further properties of the code *)

(** ** Construction checks the sizes of its vectors *)

Section ConstructionBounds.
Context {F : Type} `{Arith F} {G : Type} `{Sampler F G}.

Lemma init_loop_total (alpha : list F) beta (N : list Z) bs n : forall j,
  (j <= n)%nat -> (j <= length alpha)%nat -> (j <= length N)%nat ->
  exists mass cc,
    foldM (init_topic alpha beta N bs) (seq 0 j) (f0, replicate n f0) = Ok (mass, cc) /\
    length cc = n.
Proof.
  induction j as [|j IH]; intros Hj Ha HN.
  - eexists _, _. split; [reflexivity|apply length_replicate].
  - destruct IH as (mass & cc & Hrun & Hlen); [lia..|].
    rewrite seq_S, foldM_app, Hrun. cbn [bind foldM plus].
    unfold init_topic. rewrite (at_nth N j 0) by lia. cbn [bind].
    rewrite (at_nth alpha j f0) by lia. cbn [bind].
    rewrite set_at_lt by lia. cbn [bind].
    eexists _, _. split; [reflexivity|by rewrite length_insert].
Qed.

(** X1.  The constructor returns exactly when [alpha] and [topic_counts]
    have at least [n_topics] entries each (otherwise [at] throws).  When it
    returns, the coefficient cache has [n_topics] entries, the one of topic
    [t] being [alpha[t] / (topic_counts[t] + n_topics * beta)]; the
    smoothing-only mass is the sum over the topics of
    [alpha[t] * beta / (topic_counts[t] + n_topics * beta)]; [alpha_sum] is
    the sum of the whole vector [alpha]; the profiles are stored unchecked
    and the sampler is not touched. *)
Theorem constructor_checks_vector_sizes n (alpha : list F) beta N ttc (smp : G) :
  ((n <= length alpha)%nat /\ (n <= length N)%nat)
  <-> exists ev,
      LeftToRightEvaluator n alpha beta N ttc smp = Ok ev /\
      length (cached_coefficients_ ev) = n /\
      (forall t, (t < n)%nat ->
         cached_coefficients_ ev !! t
         = Some (nth t alpha f0 /! (of_int (nth t N 0) +! of_int (Z.of_nat n) *! beta))) /\
      smoothing_only_mass_ (model ev)
      = sum_over n (fun t =>
          nth t alpha f0 *! beta /! (of_int (nth t N 0) +! of_int (Z.of_nat n) *! beta)) /\
      alpha_sum_ (model ev) = fold_left fadd alpha f0 /\
      type_topic_counts_ (model ev) = ttc /\
      sampler_ ev = smp.
Proof.
  split.
  - intros [Ha HN].
    destruct (init_loop_total alpha beta N (of_int (Z.of_nat n) *! beta) n n)
      as (mass & cc & Hrun & Hlen); [lia..|].
    destruct (init_loop _ _ _ _ n n mass cc ltac:(lia) Hrun)
      as (_ & _ & _ & Hcc & Hmass).
    unfold LeftToRightEvaluator. rewrite Hrun. cbn [bind].
    eexists. split; [reflexivity|]. cbn. by split_and!.
  - intros (ev & Hctor & _).
    unfold LeftToRightEvaluator in Hctor. inv_bind Hctor. destruct x as [mass cc].
    destruct (init_loop _ _ _ _ n n mass cc ltac:(lia) Hx) as (Ha & HN & _).
    done.
Qed.

End ConstructionBounds.

(** ** One-unit operations: bounds and round trip *)

Section OperationBounds.
Context {F : Type} `{Arith F}.
Implicit Types (m : Model F) (st : LocalState F) (cc : list F).

Lemma run_ops_in_range m ops : forall cc st r,
  run_ops m cc st ops = Ok r ->
  ops_in_range (length (topic_counts st)) ops = true.
Proof.
  induction ops as [|[t incr] ops IH]; intros cc st r; [done|].
  unfold run_ops. cbn [foldM]. intros Hr. inv_bind Hr. destruct x as [cc1 st1].
  unfold apply_op in Hx. cbn [fst snd] in Hx.
  destruct (add_or_remove_inv _ _ _ _ _ _ _ Hx)
    as (c & ti & di & nz & Hc & _ & _ & Hst).
  cbn zeta in Hst. apply IH in Hr. subst st1.
  cbn [topic_counts set_index set_counts] in Hr. rewrite length_insert in Hr.
  cbn [ops_in_range forallb fst]. apply andb_true_iff. split; [|done].
  apply Nat.ltb_lt. by eapply lookup_lt_Some.
Qed.

(** X2.  From the all-zero local state, a run of one-unit add and remove
    operations returns exactly when every operation names a topic below
    [n_topics]; an operation on any other topic throws. *)
Theorem operations_return_iff_topics_exist m cc doc_length ops :
  model_ok m -> length cc = n_topics_ m ->
  (exists r, run_ops m cc (fresh_state m doc_length) ops = Ok r)
  <-> ops_in_range (n_topics_ m) ops = true.
Proof.
  intros Hm Hcc. split.
  - intros [r Hr]. apply run_ops_in_range in Hr.
    cbn [topic_counts fresh_state] in Hr. by rewrite length_replicate in Hr.
  - intros Hrange.
    destruct (run_ops_total m ops cc (fresh_state m doc_length) Hm
                (index_ok_fresh m doc_length) Hcc Hrange) as (cc' & st' & Hr & _).
    by exists (cc', st').
Qed.

(** X3.  On a local state with a well-formed dense index whose cached
    coefficient of [topic] is the one of its local count, and in which
    [position] carries [topic]: removing one unit of [topic] and adding it
    back at [position] both return and restore the assignments, the local
    counts, the dense active-topic list with its length, and the
    coefficient cache.  (This is what the resampling sweep does at a
    position whose draw fails.) *)
Theorem remove_then_add_restores m cc st topic position c :
  model_ok m -> index_ok (n_topics_ m) st -> length cc = n_topics_ m ->
  topic_counts st !! topic = Some c ->
  cc !! topic = Some (coefficient m topic c) ->
  doc_topics st !! position = Some topic ->
  exists cc1 st1 cc2 st2,
    remove_topic_and_update_state_and_coefficients m cc st topic
    = Ok (cc1, st1) /\
    add_topic_and_update_state_and_coefficients m cc1 st1 topic position
    = Ok (cc2, st2) /\
    doc_topics st2 = doc_topics st /\
    topic_counts st2 = topic_counts st /\
    active st2 = active st /\
    non_zero_topics st2 = non_zero_topics st /\
    cc2 = cc.
Proof.
  intros Hm Hok Hlen Hc Hcoef Hpos.
  unfold add_topic_and_update_state_and_coefficients,
    remove_topic_and_update_state_and_coefficients.
  destruct (add_or_remove_spec m cc st topic false c Hm Hok Hlen Hc)
    as (ti1 & di1 & nz1 & Hrem & Hok1).
  cbn zeta in Hrem, Hok1.
  set (st1 := set_index _ ti1 di1 nz1) in *.
  pose proof (lookup_lt_Some _ _ _ Hc) as Ht.
  pose proof (lookup_lt_Some _ _ _ Hpos) as Hp.
  set (st1' := set_doc_topics st1 (<[position:=topic]> (doc_topics st1))).
  assert (Hok1' : index_ok (n_topics_ m) st1') by (by apply (index_ok_ext _ st1)).
  assert (Hc1 : topic_counts st1' !! topic = Some (c - 1)).
  { subst st1' st1. cbn [topic_counts set_index set_counts set_doc_topics].
    by apply list_lookup_insert_eq. }
  destruct (add_or_remove_spec m (<[topic:=coefficient m topic (c - 1)]> cc)
              st1' topic true (c - 1) Hm Hok1')
    as (ti2 & di2 & nz2 & Hadd & Hok2);
    [by rewrite length_insert|done|].
  cbn zeta in Hadd, Hok2.
  set (st2 := set_index _ ti2 di2 nz2) in *.
  assert (Hcounts : topic_counts st2 = topic_counts st).
  { subst st2 st1' st1. cbn [topic_counts set_index set_counts set_doc_topics].
    rewrite list_insert_insert_eq. replace (c - 1 + 1) with c by lia.
    by apply list_insert_id. }
  assert (Hact : active st2 = active st).
  { rewrite (active_eq_positive _ _ Hok2), (active_eq_positive _ _ Hok).
    unfold positive_topics. by rewrite Hcounts. }
  exists (<[topic:=coefficient m topic (c - 1)]> cc), st1.
  eexists _, _. split_and!.
  - exact Hrem.
  - rewrite set_at_lt by (subst st1; exact Hp). cbn [bind]. exact Hadd.
  - subst st2 st1' st1. cbn [doc_topics set_index set_counts set_doc_topics].
    by apply list_insert_id.
  - done.
  - done.
  - rewrite <- (active_length _ _ Hok2), <- (active_length _ _ Hok). by rewrite Hact.
  - rewrite list_insert_insert_eq. replace (c - 1 + 1) with c by lia.
    by apply list_insert_id.
Qed.

End OperationBounds.

(** ** What a draw can change and return *)

Section SamplerEffects.
Context {F : Type} `{Arith F} {G : Type} `{Sampler F G}.
Implicit Types (m : Model F) (st : LocalState F) (cc : list F).

Lemma term_scan_range : forall (scores : list F) topic sample r,
  term_scan scores topic sample = Ok r ->
  topic <= r <= topic + Z.of_nat (length scores).
Proof.
  induction scores as [|s scores IH]; intros topic sample r; simpl.
  - destruct (f0 <! sample); [done|]. intros [= <-]. lia.
  - destruct (f0 <! sample).
    + intros Hr%IH. lia.
    + intros [= <-]. lia.
Qed.

Lemma beta_scan_range m st : forall rounds di sample r di',
  beta_scan m st rounds di sample = Ok (r, di') ->
  r = -1 \/ 0 <= r < Z.of_nat (length (topic_counts st)).
Proof.
  induction rounds as [|rounds IH]; intros di sample r di'; simpl.
  - intros [= <- <-]. by left.
  - intros Hr. inv_bind Hr. rename x into topic.
    inv_bind Hr. apply at_Ok, lookup_lt_Some in Hx0.
    inv_bind Hr. destruct (_ <=! _).
    + injection Hr as <- <-. right. lia.
    + by eapply IH.
Qed.

Lemma smoothing_scan_range m : forall (alphas : list F) new_topic sample r,
  smoothing_scan m alphas new_topic sample = Ok r ->
  Z.of_nat new_topic <= r <= Z.of_nat new_topic + Z.of_nat (length alphas).
Proof.
  induction alphas as [|a alphas IH]; intros new_topic sample r; simpl.
  - destruct (f0 <! sample); [done|]. intros [= <-]. lia.
  - destruct (f0 <! sample).
    + intros Hr. inv_bind Hr. apply IH in Hr. lia.
    + intros [= <-]. lia.
Qed.

Lemma sample_new_topic_frame m (smp : G) st nt smp' st' :
  sample_new_topic m smp st = Ok (nt, smp', st') ->
  smp' = snd (next smp) /\
  st' = set_index st (topic_index st) (dense_index st') (non_zero_topics st).
Proof.
  unfold sample_new_topic. destruct (next smp) as [u smp1]. cbn [snd].
  destruct (_ <! _).
  { intros Hs. inv_bind Hs. injection Hs as <- <- <-.
    split; [done|]. symmetry. apply set_index_same. }
  destruct (_ <! _).
  { intros Hs. inv_bind Hs. destruct x as [t di]. by injection Hs as <- <- <-. }
  intros Hs. do 3 inv_bind Hs. injection Hs as <- <- <-.
  split; [done|]. symmetry. apply set_index_same.
Qed.

Lemma sample_new_topic_range m (smp : G) st nt smp' st' :
  length (topic_term_scores st) = n_topics_ m ->
  length (topic_counts st) = n_topics_ m ->
  length (alpha_ m) = n_topics_ m ->
  sample_new_topic m smp st = Ok (nt, smp', st') ->
  -1 <= nt < Z.of_nat (n_topics_ m).
Proof.
  intros Hsc Hcn Hal. unfold sample_new_topic. destruct (next smp) as [u smp1].
  destruct (_ <! _).
  { intros Hs. inv_bind Hs. injection Hs as <- <- <-.
    apply term_scan_range in Hx. lia. }
  destruct (_ <! _).
  { intros Hs. inv_bind Hs. destruct x as [t di]. injection Hs as <- <- <-.
    apply beta_scan_range in Hx. lia. }
  intros Hs. inv_bind Hs. apply at_Ok, lookup_lt_Some in Hx.
  do 2 inv_bind Hs. injection Hs as <- <- <-.
  apply smoothing_scan_range in Hx1. rewrite length_drop in Hx1. lia.
Qed.

(** X4.  Whenever [sample_new_topic] returns, it has taken exactly one draw
    from the sampler and has changed nothing of the local state but the
    cursor [dense_index]; and on a state whose vectors have [n_topics]
    entries, for a model with [n_topics] priors, its result is -1 or a
    topic below [n_topics]. *)
Theorem sample_new_topic_effect m (smp : G) st nt smp' st' :
  sample_new_topic m smp st = Ok (nt, smp', st') ->
  smp' = snd (next smp) /\
  st' = set_index st (topic_index st) (dense_index st') (non_zero_topics st) /\
  (length (topic_term_scores st) = n_topics_ m ->
   length (topic_counts st) = n_topics_ m ->
   length (alpha_ m) = n_topics_ m ->
   -1 <= nt < Z.of_nat (n_topics_ m)).
Proof.
  intros Hs. destruct (sample_new_topic_frame _ _ _ _ _ _ Hs) as [Hsmp Hst].
  split_and!; [done|done|].
  intros Hsc Hcn Hal. by eapply sample_new_topic_range.
Qed.

End SamplerEffects.

(** ** The scores of a word in closed form *)

Section ScoreUpdate.
Context {F : Type} `{Arith F}.
Implicit Types (st : LocalState F) (cc : list F).

(** X5.  [update_topic_scores] reads the leading positive entries of the
    word's profile and nothing after the first entry that is not positive.
    It throws exactly when there are more of them than coefficients or
    scores.  Otherwise it writes one score [coefficient * entry] per such
    entry, leaves the scores behind them as they were, sets
    [topic_term_mass] to the sum of the new scores, added from left to
    right starting from 0, and changes nothing else. *)
Theorem update_topic_scores_spec cc st :
  let k := length (profile_prefix (type_topic_counts st)) in
  let scores := prefix_scores cc (type_topic_counts st) in
  update_topic_scores cc st
  = if decide (k <= length cc /\ k <= length (topic_term_scores st))%nat
    then Ok (set_scores st (fold_left fadd scores f0)
               (scores ++ drop k (topic_term_scores st)))
    else OutOfRange.
Proof.
  intros k scores. unfold update_topic_scores. rewrite walk_profile_spec.
  rewrite !Nat.sub_0_r. fold k. destruct (decide _); [|done].
  cbn [bind]. by rewrite drop_0, take_0.
Qed.

End ScoreUpdate.

(** ** The evaluator without particles *)

Section NoParticles.
Context {F : Type} `{Arith F} `{!ZeroLaws F} {G : Type} `{Sampler F G}.
Variable log : F -> F.

Lemma documents_without_particles resampling : forall docs (ev : Evaluator F G),
  foldM (evaluate_document log 0 resampling) docs (f0, ev, [], O)
  = Ok (f0, ev, [], O).
Proof.
  induction docs as [|types docs IH]; intros ev; [done|].
  cbn [foldM]. unfold evaluate_document at 1. cbn [seq foldM bind].
  rewrite fadd_0_0. apply IH.
Qed.

(** X6.  With a particle count of 0, [evaluate] returns 0 for every corpus,
    draws nothing and leaves the evaluator as it is: no pass is run and no
    position is averaged ([log] of the particle count is computed and not
    used). *)
Theorem evaluate_without_particles (ev : Evaluator F G) docs resampling :
  evaluate log ev docs 0 resampling = Ok (f0, ev).
Proof.
  unfold evaluate. cbn [replicate]. by rewrite documents_without_particles.
Qed.

End NoParticles.

(** ** A draw of exactly 0 *)

Section ZeroDraw.
Context {G : Type} `{Sampler float G}.

Lemma zero_times_finite (x : float) :
  is_finite x = true ->
  exists s, Prim2SF (0 * x)%float = S754_zero s.
Proof.
  intros Hfin. unfold is_finite, is_nan, is_infinity in Hfin.
  rewrite !FloatAxioms.eqb_spec, FloatAxioms.abs_spec in Hfin.
  rewrite FloatAxioms.mul_spec.
  change (Prim2SF 0) with (S754_zero false).
  change (Prim2SF infinity) with (S754_infinity false) in Hfin.
  destruct (Prim2SF x) as [s|s| |s mx ex]; cbn in *.
  - by eexists.
  - by destruct s.
  - done.
  - by eexists.
Qed.

Lemma zero_below_positive (s : bool) (z y : float) :
  Prim2SF z = S754_zero s -> (0 <? y)%float = true ->
  (z <? y)%float = true /\ (0 <? z)%float = false.
Proof.
  intros Hz Hy. rewrite !FloatAxioms.ltb_spec in *. rewrite Hz.
  change (Prim2SF 0) with (S754_zero false) in *. done.
Qed.

(** X7.  In binary64: when the sampler draws exactly 0, the three masses
    have a finite sum and the topic-term mass is positive, the term bucket
    is selected and its loop does not run once, so [sample_new_topic]
    returns -1, the state being unchanged. *)
Theorem zero_draw_selects_no_topic (m : Model float) (smp : G) st :
  fst (next smp) = 0%float ->
  is_finite (total_mass m st) = true ->
  (0 <? topic_term_mass st)%float = true ->
  sample_new_topic m smp st = Ok (-1, snd (next smp), st).
Proof.
  intros Hu Hfin Hpos. unfold sample_new_topic.
  destruct (next smp) as [u smp']. cbn [fst snd] in *. subst u.
  destruct (zero_times_finite _ Hfin) as [s Hs].
  destruct (zero_below_positive s _ _ Hs Hpos) as [Hlt Hnot].
  change ((0%float *! total_mass m st <! topic_term_mass st)) with
    ((0 * total_mass m st <? topic_term_mass st)%float).
  rewrite Hlt.
  assert (Hscan : forall scores : list float,
            term_scan scores (-1) (0%float *! total_mass m st) = Ok (-1)).
  { intros [|x scores]; cbn [term_scan];
      change (f0 <! 0%float *! total_mass m st)
        with ((0 <? 0 * total_mass m st)%float); by rewrite Hnot. }
  by rewrite Hscan.
Qed.

End ZeroDraw.

(** ** The number of draws of a pass *)

Section Draws.
Context {F : Type} `{Arith F} {G : Type} `{Sampler F G}.
Implicit Types (m : Model F) (st : LocalState F) (cc : list F) (ps : @Pass F G).

Lemma after_draws_add a b (smp : G) :
  after_draws (a + b) smp = after_draws b (after_draws a smp).
Proof. unfold after_draws. by rewrite Nat.add_comm, Nat.iter_add. Qed.

Lemma sample_new_topic_draws m (smp : G) st nt smp' st' :
  sample_new_topic m smp st = Ok (nt, smp', st') -> smp' = after_draws 1 smp.
Proof.
  change (after_draws 1 smp) with (snd (next smp)).
  unfold sample_new_topic. destruct (next smp) as [u smp1]. cbn [snd].
  destruct (_ <! _).
  { intros Hs. inv_bind Hs. by injection Hs as <- <- <-. }
  destruct (_ <! _).
  { intros Hs. inv_bind Hs. destruct x as [t di]. by injection Hs as <- <- <-. }
  intros Hs. do 3 inv_bind Hs. by injection Hs as <- <- <-.
Qed.

Lemma in_vocab_count_take_S m types k ty :
  types !! k = Some ty ->
  in_vocab_count m (take (S k) types)
  = (in_vocab_count m (take k types)
     + if out_of_vocabulary m ty then 0 else 1)%nat.
Proof.
  intros Hty. rewrite (take_S_r _ _ _ Hty). apply in_vocab_count_snoc.
Qed.

Lemma sweep_draws m types : forall k cc smp st cc' smp' st',
  foldM (resample_position m types) (seq 0 k) (cc, smp, st) = Ok (cc', smp', st') ->
  smp' = after_draws (in_vocab_count m (take k types)) smp.
Proof.
  induction k as [|k IH]; intros cc smp st cc' smp' st'.
  - by intros [= <- <- <-].
  - rewrite seq_S, foldM_app. intros Hr. inv_bind Hr.
    destruct x as [[cc1 smp1] st1]. apply IH in Hx. subst smp1.
    cbn [foldM plus] in Hr. inv_bind Hr. injection Hr as ->.
    unfold resample_position in Hx. inv_bind Hx. rename x into ty.
    apply at_Ok in Hx0. rewrite (in_vocab_count_take_S m types k ty Hx0).
    rewrite after_draws_add.
    destruct (out_of_vocabulary m ty).
    { by injection Hx as <- <- <-. }
    do 2 inv_bind Hx.
    apply bind_Ok in Hx as ([cc2 st2] & _ & Hx). inv_bind Hx.
    apply bind_Ok in Hx as ([[nt smp3] st3] & Hsample & Hx).
    apply bind_Ok in Hx as ([cc4 st4] & _ & Hx). injection Hx as <- <- <-.
    by apply sample_new_topic_draws in Hsample.
Qed.

Lemma process_position_draws m types resampling ps k ps' :
  process_position m types resampling ps k = Ok ps' ->
  pass_sampler ps'
  = after_draws
      ((if resampling then in_vocab_count m (take k types) else 0)
       + (in_vocab_count m (take (S k) types) - in_vocab_count m (take k types)))
      (pass_sampler ps).
Proof.
  unfold process_position. intros Hr. inv_bind Hr.
  destruct x as [[cc smp] st].
  assert (Hsweep : smp = after_draws
            (if resampling then in_vocab_count m (take k types) else 0)
            (pass_sampler ps)).
  { unfold resampling_sweep in Hx. destruct resampling.
    - by apply sweep_draws in Hx.
    - by injection Hx as <- <- <-. }
  inv_bind Hr. rename x into ty. apply at_Ok in Hx0.
  rewrite (in_vocab_count_take_S m types k ty Hx0), after_draws_add, <- Hsweep.
  destruct (out_of_vocabulary m ty).
  { injection Hr as <-. cbn [pass_sampler].
    by replace (_ + 0 - _)%nat with O by lia. }
  replace (_ + 1 - _)%nat with 1%nat by lia.
  unfold score_frontier in Hr. do 4 inv_bind Hr.
  apply bind_Ok in Hr as ([[nt smp3] st3] & Hsample & Hr).
  apply bind_Ok in Hr as ([cc4 st4] & _ & Hr). injection Hr as <-.
  cbn [pass_sampler pass_state] in *. by apply sample_new_topic_draws in Hsample.
Qed.

Lemma draws_S m types resampling k :
  (k < length types)%nat ->
  draws m types resampling (S k)
  = (draws m types resampling k
     + ((if resampling then in_vocab_count m (take k types) else 0)
        + (in_vocab_count m (take (S k) types) - in_vocab_count m (take k types))))%nat.
Proof.
  intros Hk. destruct (lookup_lt_is_Some_2 _ _ Hk) as [ty Hty].
  unfold draws. rewrite (in_vocab_count_take_S m types k ty Hty).
  destruct resampling; [|lia].
  rewrite seq_S, sum_list_with_app. cbn [sum_list_with plus]. lia.
Qed.

Lemma run_positions_draws m types resampling cc smp : forall k ps,
  run_positions m types resampling cc smp k = Ok ps ->
  pass_sampler ps = after_draws (draws m types resampling k) smp.
Proof.
  induction k as [|k IH]; intros ps.
  - intros [= <-]. by destruct resampling.
  - rewrite run_positions_S. intros Hr. inv_bind Hr.
    assert (k < length types)%nat as Hk.
    { unfold process_position in Hr.
      apply bind_Ok in Hr as ([[cc1 smp1] st1] & _ & Hr).
      apply bind_Ok in Hr as (ty & Hty%at_Ok & _). by eapply lookup_lt_Some. }
    rewrite (draws_S _ _ _ _ Hk), after_draws_add, <- (IH _ Hx).
    by apply process_position_draws.
Qed.

(** X8.  Whenever [get_word_probabilities] returns, it has taken from the
    sampler a number of draws that depends on the document alone: one per
    in-vocabulary token and, when resampling, one more per in-vocabulary
    token before each position of the document (also before the
    out-of-vocabulary ones). *)
Theorem get_word_probabilities_draws (ev ev' : Evaluator F G) types resampling wp :
  get_word_probabilities ev types resampling = Ok (wp, ev') ->
  sampler_ ev'
  = after_draws (draws (model ev) types resampling (length types)) (sampler_ ev).
Proof.
  unfold get_word_probabilities. intros Hr. do 2 inv_bind Hr.
  injection Hr as <- <-. cbn [sampler_]. by eapply run_positions_draws.
Qed.

End Draws.

(** ** The probability of a first token *)

Section FirstToken.
Context {F : Type} `{Arith F} {G : Type} `{Sampler F G}.

(** X12.  For a constructed evaluator, in the arithmetic of the code: the
    probability recorded for an in-vocabulary first token of a document
    depends neither on the sampler, nor on resampling, nor on the rest of
    the document.  It is [0 + (S + 0 + T) / (alpha_sum + 0)], where [S] is
    the sum over all topics of [alpha[t] * beta / (topic_counts[t] +
    n_topics * beta)], [T] the sum over the leading positive entries of the
    word's profile of [alpha[t] / (topic_counts[t] + n_topics * beta) *
    entry], and [alpha_sum] the sum of [alpha], each sum being added from
    left to right starting from 0. *)
Theorem first_token_scored_from_priors n alpha beta N ttc (smp : G) ev ty types
  resampling wp ev' :
  LeftToRightEvaluator n alpha beta N ttc smp = Ok ev ->
  out_of_vocabulary (model ev) ty = false ->
  get_word_probabilities ev (ty :: types) resampling = Ok (wp, ev') ->
  let profile := profile_prefix (nth (Z.to_nat ty) ttc []) in
  let denom t := of_int (nth t N 0) +! of_int (Z.of_nat n) *! beta in
  wp !! 0%nat
  = Some (f0 +! (sum_over n (fun t => nth t alpha f0 *! beta /! denom t)
                 +! f0
                 +! sum_over (length profile)
                      (fun t => nth t alpha f0 /! denom t
                                *! of_int (nth t profile 0)))
                /! (fold_left fadd alpha f0 +! of_int 0)).
Proof.
  intros Hctor Hoov Hgwp profile denom.
  destruct (constructor_spec _ _ _ _ _ _ _ Hctor)
    as (Hn & Ha & Hb & HN & Httc & Hbs & Has & Hsmp & Hm & Hzero & Hsom).
  set (m := model ev) in *.
  unfold get_word_probabilities in Hgwp. fold m in Hgwp.
  apply bind_Ok in Hgwp as (ps & Hrun & Hgwp).
  apply bind_Ok in Hgwp as (cc' & _ & Hgwp). injection Hgwp as <- _.
  destruct (run_positions_wp m (ty :: types) resampling _ _ _ ps
              ltac:(reflexivity) Hrun) as (_ & _ & _ & Hdone).
  specialize (Hdone O ty ltac:(simpl; lia) eq_refl). rewrite Hoov in Hdone.
  destruct Hdone as (v & -> & ps0 & cc & smp0 & st & prof & st' & Hrun0 & _
                     & Hsw & Hprof & Hup & ->).
  injection Hrun0 as <-.
  assert (Hst : (cc, smp0, st)
                = (cached_coefficients_ ev, sampler_ ev,
                   fresh_state m (S (length types)))).
  { unfold resampling_sweep in Hsw. destruct resampling; by injection Hsw as <- <- <-. }
  injection Hst as -> -> ->.
  apply (at_Ok_nth _ _ _ []) in Hprof as [_ ->]. rewrite Httc in Hup.
  unfold update_topic_scores in Hup.
  cbn [type_topic_counts topic_term_scores set_type fresh_state] in Hup.
  rewrite walk_profile_spec in Hup.
  destruct (decide _) as [[Hk _]|] in Hup; [|done].
  cbn [bind] in Hup. injection Hup as <-.
  unfold total_mass.
  cbn [topic_beta_mass topic_term_mass set_scores set_type fresh_state].
  rewrite drop_0.
  rewrite (prefix_scores_sum _ _ (zero_coefficient m)).
  2:{ intros t Ht. destruct Hzero as [Hlen Hz]. apply Hz. lia. }
  rewrite Hsom. unfold prior_mass, zero_coefficient.
  rewrite Ha, Hb, HN, Hbs, Has. done.
Qed.

End FirstToken.


(** ** Out-of-vocabulary tokens without resampling *)

Section ForgetAssignments.
Context {F : Type} `{Arith F} {G : Type} `{Sampler F G}.
Implicit Types (m : Model F) (st : LocalState F) (cc : list F) (dt : list nat).

(** The steps of a pass read the assignments nowhere but at the position
    they resample. *)
Lemma update_topic_scores_retag cc st dt :
  update_topic_scores cc (set_doc_topics st dt)
  = match update_topic_scores cc st with
    | Ok s => Ok (set_doc_topics s dt)
    | OutOfRange => OutOfRange
    end.
Proof.
  unfold update_topic_scores. cbn [type_topic_counts topic_term_scores set_doc_topics].
  by destruct (walk_profile _ _ _ _ _) as [[mass scores]|].
Qed.

Lemma sample_new_topic_retag m (smp : G) st dt :
  sample_new_topic m smp (set_doc_topics st dt)
  = match sample_new_topic m smp st with
    | Ok (nt, smp', s) => Ok (nt, smp', set_doc_topics s dt)
    | OutOfRange => OutOfRange
    end.
Proof.
  unfold sample_new_topic. destruct (next smp) as [u smp'].
  change (total_mass m (set_doc_topics st dt)) with (total_mass m st).
  cbn [topic_term_mass topic_beta_mass topic_term_scores non_zero_topics
       topic_index set_doc_topics].
  destruct (_ <! _).
  { by destruct (term_scan _ _ _). }
  destruct (_ <! _).
  { assert (Hscan : forall rounds di sample,
              beta_scan m (set_doc_topics st dt) rounds di sample
              = beta_scan m st rounds di sample).
    { induction rounds as [|rounds IH]; intros di sample; [done|].
      cbn [beta_scan topic_index topic_counts set_doc_topics].
      destruct (at_ (topic_index st) di) as [topic|]; [|done]. cbn [bind].
      destruct (at_ (topic_counts st) topic) as [c|]; [|done]. cbn [bind].
      destruct (at_ (topic_counts_ m) topic) as [n|]; [|done]. cbn [bind].
      destruct (_ <=! _); [done|]. apply IH. }
    rewrite Hscan. by destruct (beta_scan _ _ _ _ _) as [[t di]|]. }
  destruct (at_ (alpha_ m) 0) as [a|]; [|done]. cbn [bind].
  destruct (at_ (topic_counts_ m) 0) as [n|]; [|done]. cbn [bind].
  by destruct (smoothing_scan _ _ _ _).
Qed.

Lemma add_or_remove_retag m cc st dt t incr :
  add_or_remove_topic_and_update_state_and_coefficients m cc (set_doc_topics st dt) t incr
  = match add_or_remove_topic_and_update_state_and_coefficients m cc st t incr with
    | Ok (cc', s) => Ok (cc', set_doc_topics s dt)
    | OutOfRange => OutOfRange
    end.
Proof.
  unfold add_or_remove_topic_and_update_state_and_coefficients.
  cbn [topic_counts topic_beta_mass set_doc_topics].
  destruct (at_ (topic_counts_ m) t) as [n|]; [|done]. cbn [bind].
  destruct (at_ (topic_counts st) t) as [c|]; [|done]. cbn [bind].
  destruct (set_at (topic_counts st) t _) as [counts|]; [|done]. cbn [bind].
  destruct (at_ (alpha_ m) t) as [a|]; [|done]. cbn [bind].
  destruct (set_at cc t _) as [cc'|]; [|done]. cbn [bind].
  destruct incr.
  - unfold maintain_dense_index_addition.
    cbn [topic_counts topic_index non_zero_topics set_counts set_doc_topics].
    destruct (at_ counts t) as [c'|]; [|done]. cbn [bind].
    destruct (c' =? 1); [|done].
    destruct (insertion_scan _ _ _) as [[ti di]|]; [|done]. cbn [bind].
    by destruct (set_at ti di t).
  - unfold maintain_dense_index_elimination.
    cbn [topic_counts topic_index non_zero_topics set_counts set_doc_topics].
    destruct (at_ counts t) as [c'|]; [|done]. cbn [bind].
    destruct (c' =? 0); [|done].
    destruct (find_slot _ _ _) as [di|]; [|done]. cbn [bind].
    by destruct (foldM _ _ _).
Qed.

End ForgetAssignments.

Section WithoutResampling.
Context {F : Type} `{Arith F} {G : Type} `{Sampler F G}.
Implicit Types (m : Model F) (st : LocalState F) (cc : list F) (dt : list nat)
  (ps : @Pass F G).

Lemma score_frontier_retag m ty k k' ps ps' n' v :
  same_but_assignments ps ps' n' ->
  word_probabilities ps !! k = Some v -> word_probabilities ps' !! k' = Some v ->
  (k < length (doc_topics (pass_state ps)))%nat -> (k' < n')%nat ->
  match score_frontier m ty k ps with
  | Ok r =>
      exists r', score_frontier m ty k' ps' = Ok r' /\
        same_but_assignments r r' n' /\
        length (doc_topics (pass_state r)) = length (doc_topics (pass_state ps)) /\
        exists x, word_probabilities r = <[k:=x]> (word_probabilities ps) /\
                  word_probabilities r' = <[k':=x]> (word_probabilities ps')
  | OutOfRange => score_frontier m ty k' ps' = OutOfRange
  end.
Proof.
  intros (Hcc & Hsmp & Htok & dt' & Hst & Hlen) Hv Hv' Hk Hk'.
  unfold score_frontier. rewrite Hcc, Hsmp, Htok, Hst.
  destruct (at_ (type_topic_counts_ m) (Z.to_nat ty)) as [prof|]; [|done].
  cbn [bind].
  change (set_type (set_doc_topics (pass_state ps) dt') ty prof)
    with (set_doc_topics (set_type (pass_state ps) ty prof) dt').
  rewrite update_topic_scores_retag.
  destruct (update_topic_scores (pass_cc ps) (set_type (pass_state ps) ty prof))
    as [st1|] eqn:Hup; [|done].
  cbn [bind]. rewrite (proj2 (at_Ok _ _ _) Hv), (proj2 (at_Ok _ _ _) Hv').
  cbn [bind].
  change (total_mass m (set_doc_topics st1 dt')) with (total_mass m st1).
  rewrite !set_at_lt by (by eapply lookup_lt_Some). cbn [bind].
  rewrite sample_new_topic_retag.
  destruct (sample_new_topic m (pass_sampler ps) st1) as [[[nt smp2] st2]|] eqn:Hsample;
    [|done].
  cbn [bind].
  set (new := to_uint _).
  pose proof (update_topic_scores_core _ _ _ Hup) as (Hd1 & _).
  pose proof (sample_new_topic_core _ _ _ _ _ _ Hsample) as (Hd2 & _).
  cbn [doc_topics set_type] in Hd1.
  unfold add_topic_and_update_state_and_coefficients.
  cbn [doc_topics set_doc_topics].
  rewrite !set_at_lt by (rewrite ?Hd2, ?Hd1; lia). cbn [bind].
  change (set_doc_topics (set_doc_topics st2 dt') (<[k':=new]> dt'))
    with (set_doc_topics st2 (<[k':=new]> dt')).
  rewrite !add_or_remove_retag.
  destruct (add_or_remove_topic_and_update_state_and_coefficients m (pass_cc ps)
              st2 new true) as [[cc3 st3]|] eqn:Hadd; [|done].
  cbn [bind]. eexists. split; [reflexivity|].
  cbn [pass_cc pass_sampler pass_state tokens_so_far word_probabilities].
  split_and!.
  - split_and!; [done|done|done|].
    exists (<[k':=new]> dt'). split; [done|]. by rewrite length_insert.
  - cbn [doc_topics set_doc_topics]. by rewrite length_insert, Hd2, Hd1.
  - by eexists.
Qed.

Lemma in_vocabulary_lookup m types k ty :
  types !! k = Some ty -> out_of_vocabulary m ty = false ->
  in_vocabulary m types !! in_vocab_count m (take k types) = Some ty.
Proof.
  intros Hty Hoov. unfold in_vocabulary, in_vocab_count.
  set (P := fun ty0 : Z => out_of_vocabulary m ty0 = false).
  replace (filter P types)
    with (filter P (take k types ++ ty :: drop (S k) types))
    by (by rewrite <- (drop_S _ _ _ Hty), take_drop).
  rewrite (filter_app P). rewrite (filter_cons P). rewrite decide_True by done.
  by rewrite lookup_app_r, Nat.sub_diag by lia.
Qed.

Lemma in_vocabulary_entries_snoc {A} m : forall types (v : list A) ty x,
  length types = length v ->
  in_vocabulary_entries m (types ++ [ty]) (v ++ [x])
  = in_vocabulary_entries m types v
    ++ (if out_of_vocabulary m ty then [] else [x]).
Proof.
  induction types as [|ty0 types IH]; intros [|x0 v] ty x Hlen; try done.
  simpl in Hlen. cbn [app in_vocabulary_entries].
  rewrite IH by lia. by destruct (out_of_vocabulary m ty0).
Qed.

Lemma run_positions_thrown m types resampling cc (smp : G) j : forall j',
  (j <= j')%nat ->
  run_positions m types resampling cc smp j = OutOfRange ->
  run_positions m types resampling cc smp j' = OutOfRange.
Proof.
  induction j' as [|j' IH]; intros Hj Hrun.
  - by replace j with O in Hrun by lia.
  - destruct (decide (j = S j')) as [->|Hne]; [done|].
    rewrite run_positions_S, IH by (done || lia). done.
Qed.

Lemma run_positions_retag m types cc (smp : G) : forall k,
  (k <= length types)%nat ->
  match run_positions m types false cc smp k with
  | Ok ps =>
      exists ps',
        run_positions m (in_vocabulary m types) false cc smp
          (in_vocab_count m (take k types)) = Ok ps' /\
        same_but_assignments ps ps' (length (in_vocabulary m types)) /\
        length (doc_topics (pass_state ps)) = length types /\
        in_vocabulary_entries m (take k types) (take k (word_probabilities ps))
        = take (in_vocab_count m (take k types)) (word_probabilities ps')
  | OutOfRange =>
      exists j, (j <= in_vocab_count m (take k types))%nat /\
        run_positions m (in_vocabulary m types) false cc smp j = OutOfRange
  end.
Proof.
  induction k as [|k IH]; intros Hk.
  - cbn. eexists. split; [reflexivity|]. split_and!; try done.
    + repeat split. exists (replicate (length (in_vocabulary m types)) O).
      split; [done|apply length_replicate].
    + cbn. apply length_replicate.
  - specialize (IH ltac:(lia)).
    destruct (lookup_lt_is_Some_2 types k ltac:(lia)) as [ty Hty].
    rewrite (in_vocab_count_take_S m types k ty Hty).
    rewrite run_positions_S.
    destruct (run_positions m types false cc smp k) as [ps|] eqn:Hrun.
    2:{ destruct IH as (j & Hj & Hthrown). exists j. split; [lia|done]. }
    destruct IH as (ps' & Hrun' & Hsame & Hdoc & Hwp).
    cbn [bind]. unfold process_position, resampling_sweep. cbn [bind].
    rewrite (proj2 (at_Ok _ _ _) Hty). cbn [bind].
    destruct (run_positions_wp m types false cc smp k ps ltac:(lia) Hrun)
      as (Hlen & _ & Hzero & _).
    destruct (out_of_vocabulary m ty) eqn:Hoov.
    + rewrite Nat.add_0_r. exists ps'. split; [done|].
      cbn [pass_cc pass_sampler pass_state tokens_so_far word_probabilities].
      split_and!; [done|done|].
      destruct (lookup_lt_is_Some_2 (word_probabilities ps) k) as [x Hx]; [lia|].
      rewrite (take_S_r _ _ _ Hty), (take_S_r _ _ _ Hx).
      rewrite in_vocabulary_entries_snoc by (rewrite !length_take; lia).
      by rewrite Hoov, app_nil_r.
    + set (k' := in_vocab_count m (take k types)) in *.
      pose proof (in_vocabulary_lookup m types k ty Hty Hoov) as Hty'. fold k' in Hty'.
      pose proof (lookup_lt_Some _ _ _ Hty') as Hk'.
      destruct (run_positions_wp m (in_vocabulary m types) false cc smp k' ps'
                  ltac:(lia) Hrun') as (Hlen' & _ & Hzero' & _).
      pose proof (score_frontier_retag m ty k k'
                    {| pass_cc := pass_cc ps; pass_sampler := pass_sampler ps;
                       pass_state := pass_state ps;
                       word_probabilities := word_probabilities ps;
                       tokens_so_far := tokens_so_far ps |}
                    ps' (length (in_vocabulary m types)) f0) as Hstep.
      cbn [pass_cc pass_sampler pass_state tokens_so_far word_probabilities] in Hstep.
      specialize (Hstep Hsame (Hzero k ltac:(lia)) (Hzero' k' ltac:(lia))
                    ltac:(lia) Hk').
      destruct (score_frontier m ty k _) as [r|] eqn:Hr.
      2:{ exists (S k'). split; [lia|].
          rewrite run_positions_S, Hrun'. cbn [bind].
          unfold process_position, resampling_sweep. cbn [bind].
          rewrite (proj2 (at_Ok _ _ _) Hty'). cbn [bind]. rewrite Hoov.
          destruct Hsame as (Hcc & Hsmp & Htok & dt' & Hst & Hdt).
          rewrite <- Hstep. by destruct ps'. }
      destruct Hstep as (r' & Hr' & Hsame' & Hdoc' & x & Hwpr & Hwpr').
      exists r'. replace (k' + 1)%nat with (S k') by lia. split_and!.
      * rewrite run_positions_S, Hrun'. cbn [bind].
        unfold process_position, resampling_sweep. cbn [bind].
        rewrite (proj2 (at_Ok _ _ _) Hty'). cbn [bind]. rewrite Hoov.
        rewrite <- Hr'. by destruct ps'.
      * done.
      * cbn [pass_state] in Hdoc'. lia.
      * rewrite Hwpr, Hwpr'.
        rewrite (take_S_r _ _ _ Hty).
        rewrite (take_S_r _ k x) by (apply list_lookup_insert_eq; lia).
        rewrite (take_S_r _ k' x) by (apply list_lookup_insert_eq; lia).
        rewrite !take_insert_ge by lia.
        rewrite in_vocabulary_entries_snoc by (rewrite !length_take; lia).
        by rewrite Hoov, Hwp.
Qed.

Lemma get_word_probabilities_in_vocabulary (ev : Evaluator F G) types :
  get_word_probabilities ev (in_vocabulary (model ev) types) false
  = match get_word_probabilities ev types false with
    | Ok (wp, ev') => Ok (in_vocabulary_entries (model ev) types wp, ev')
    | OutOfRange => OutOfRange
    end.
Proof.
  set (m := model ev).
  pose proof (run_positions_retag m types (cached_coefficients_ ev) (sampler_ ev)
                (length types) ltac:(lia)) as Hsim.
  rewrite take_ge in Hsim by lia.
  unfold get_word_probabilities. fold m.
  change (length (in_vocabulary m types)) with (in_vocab_count m types).
  destruct (run_positions m types false _ _ (length types)) as [ps|] eqn:Hrun.
  - destruct Hsim as (ps' & Hrun' & (Hcc & Hsmp & _ & dt' & Hst & _) & _ & Hwp).
    rewrite Hrun'. cbn [bind]. rewrite Hst, Hcc, Hsmp.
    change (reset_coefficient m (set_doc_topics (pass_state ps) dt'))
      with (reset_coefficient m (pass_state ps)).
    change (non_zero_topics (set_doc_topics (pass_state ps) dt'))
      with (non_zero_topics (pass_state ps)).
    destruct (foldM _ _ _) as [cc'|]; [|done]. cbn [bind].
    destruct (run_positions_wp m types false _ _ (length types) ps
                ltac:(lia) Hrun) as (Hlen & _).
    destruct (run_positions_wp m (in_vocabulary m types) false _ _
                (in_vocab_count m types) ps' ltac:(reflexivity) Hrun') as (Hlen' & _).
    rewrite take_ge in Hwp by lia. rewrite Hwp.
    by rewrite take_ge by (rewrite Hlen'; done).
  - destruct Hsim as (j & Hj & Hthrown).
    by rewrite (run_positions_thrown m _ false _ _ j (in_vocab_count m types) Hj Hthrown).
Qed.

(** X13.  Without resampling, the out-of-vocabulary tokens of a document
    have no effect on a pass: the pass over the in-vocabulary tokens alone
    returns, or throws, as the pass over the document does, with the
    probabilities of the in-vocabulary positions in the same order and the
    same evaluator (cache and sampler) afterwards. *)
Theorem oov_tokens_ignored_without_resampling (ev : Evaluator F G) types :
  get_word_probabilities ev (in_vocabulary (model ev) types) false
  = match get_word_probabilities ev types false with
    | Ok (wp, ev') => Ok (in_vocabulary_entries (model ev) types wp, ev')
    | OutOfRange => OutOfRange
    end.
Proof. apply get_word_probabilities_in_vocabulary. Qed.

End WithoutResampling.

Section EvaluateWithoutResampling.
Context {F : Type} `{Arith F} {G : Type} `{Sampler F G} `{!ZeroLaws F}.
Variable log : F -> F.
Implicit Types (m : Model F) (ev : Evaluator F G) (pp : list (list F)).

Lemma in_vocabulary_entries_lookup {A} m : forall types (v : list A) k ty,
  length v = length types -> types !! k = Some ty ->
  out_of_vocabulary m ty = false ->
  in_vocabulary_entries m types v !! in_vocab_count m (take k types) = v !! k.
Proof.
  induction types as [|ty0 types IH]; intros [|x v] k ty Hlen Hty Hoov; try done.
  simpl in Hlen. destruct k as [|k].
  - injection Hty as ->. cbn [in_vocabulary_entries]. by rewrite Hoov.
  - cbn [take in_vocabulary_entries]. simpl in Hty.
    unfold in_vocab_count. rewrite filter_cons.
    fold (in_vocab_count m (take k types)).
    destruct (out_of_vocabulary m ty0) eqn:Hoov0.
    + rewrite decide_False by done. apply (IH v k ty); (done || lia).
    + rewrite decide_True by done. cbn [length lookup list_lookup].
      apply (IH v k ty); (done || lia).
Qed.

Lemma in_vocabulary_entries_length {A} m : forall types (v : list A),
  length v = length types ->
  length (in_vocabulary_entries m types v) = in_vocab_count m types.
Proof.
  induction types as [|ty0 types IH]; intros [|x v] Hlen; try done.
  simpl in Hlen. cbn [in_vocabulary_entries].
  unfold in_vocab_count. rewrite filter_cons. fold (in_vocab_count m types).
  destruct (out_of_vocabulary m ty0) eqn:Hoov0.
  - rewrite decide_False by done. apply IH. lia.
  - rewrite decide_True by done. cbn [length]. f_equal. apply IH. lia.
Qed.

Lemma get_word_probabilities_model ev ev' types resampling wp :
  get_word_probabilities ev types resampling = Ok (wp, ev') -> model ev' = model ev.
Proof.
  unfold get_word_probabilities. intros Hr.
  inv_bind Hr. inv_bind Hr. by injection Hr as <- <-.
Qed.

Lemma get_word_probabilities_zero_at_oov ev ev' types resampling wp k ty :
  get_word_probabilities ev types resampling = Ok (wp, ev') ->
  types !! k = Some ty -> out_of_vocabulary (model ev) ty = true ->
  wp !! k = Some f0.
Proof.
  unfold get_word_probabilities. intros Hr Hty Hoov.
  inv_bind Hr. inv_bind Hr. injection Hr as <- <-.
  apply run_positions_wp in Hx as (_ & _ & _ & Hrec); [|done].
  specialize (Hrec k ty (lookup_lt_Some _ _ _ Hty) Hty). by rewrite Hoov in Hrec.
Qed.

Lemma run_particles_in_vocabulary m types n : forall j ev pp pp',
  (j <= n)%nat -> length pp = n -> length pp' = n -> model ev = m ->
  match foldM (run_particle types false) (seq 0 j) (ev, pp, O) with
  | Ok (e, p, d) =>
      exists p' d',
        foldM (run_particle (in_vocabulary m types) false) (seq 0 j) (ev, pp', O)
        = Ok (e, p', d') /\
        length p = n /\ length p' = n /\ model e = m /\
        kept_entries m types (take j p) (take j p')
  | OutOfRange =>
      foldM (run_particle (in_vocabulary m types) false) (seq 0 j) (ev, pp', O)
      = OutOfRange
  end.
Proof.
  induction j as [|j IH]; intros ev pp pp' Hj Hpp Hpp' Hm.
  - cbn [seq foldM]. eexists _, _. split; [done|]. split_and!; try done.
    rewrite !take_0. constructor.
  - rewrite seq_S, !foldM_app. specialize (IH ev pp pp' ltac:(lia) Hpp Hpp' Hm).
    destruct (foldM (run_particle types false) (seq 0 j) (ev, pp, O))
      as [[[e1 p1] d1]|]; [|by rewrite IH].
    destruct IH as (p1' & d1' & -> & Hl1 & Hl1' & Hm1 & Hkept).
    cbn [bind foldM]. rewrite !run_particle_unfold. rewrite Nat.add_0_l.
    pose proof (get_word_probabilities_in_vocabulary e1 types) as Hiv.
    rewrite Hm1 in Hiv. rewrite Hiv. clear Hiv.
    destruct (get_word_probabilities e1 types false) as [[probs e2]|] eqn:Hg; [|done].
    rewrite !set_at_lt by lia. cbn [bind].
    eexists _, _. split; [done|].
    rewrite !length_insert. split_and!; try done.
    + rewrite <- Hm1. by eapply get_word_probabilities_model.
    + rewrite (take_S_r _ _ probs) by (apply list_lookup_insert_eq; lia).
      rewrite (take_S_r _ _ (in_vocabulary_entries m types probs))
        by (apply list_lookup_insert_eq; lia).
      rewrite !take_insert_ge by lia.
      apply Forall2_app; [done|]. constructor; [|constructor].
      split_and!.
      * done.
      * by eapply get_word_probabilities_length.
      * intros k ty Hty Hoov. rewrite <- Hm1 in Hoov.
        by eapply get_word_probabilities_zero_at_oov.
Qed.

Lemma sum_particles_oov m types pp pp' k ty :
  kept_entries m types pp pp' ->
  types !! k = Some ty -> out_of_vocabulary m ty = true ->
  sum_particles pp k f0 = Ok f0.
Proof.
  intros Hkept Hty Hoov.
  induction Hkept as [|v v' pp pp' (_ & Hlen & Hzero) _ IH]; [done|].
  cbn [sum_particles]. rewrite Hlen.
  destruct (Nat.leb_spec (length types) k); [done|].
  unfold at_. rewrite (Hzero k ty Hty Hoov). cbn [bind]. by rewrite fadd_0_0.
Qed.

Lemma sum_particles_in_vocabulary m types pp pp' k ty :
  kept_entries m types pp pp' ->
  types !! k = Some ty -> out_of_vocabulary m ty = false ->
  forall sum,
    sum_particles pp' (in_vocab_count m (take k types)) sum
    = sum_particles pp k sum.
Proof.
  intros Hkept Hty Hoov.
  pose proof (lookup_lt_Some _ _ _ (in_vocabulary_lookup m types k ty Hty Hoov)) as Hk'.
  pose proof (lookup_lt_Some _ _ _ Hty) as Hk.
  induction Hkept as [|v v' pp pp' (-> & Hlen & Hzero) _ IH]; intros sum; [done|].
  cbn [sum_particles]. rewrite Hlen, in_vocabulary_entries_length by done.
  change (length (in_vocabulary m types)) with (in_vocab_count m types) in Hk'.
  destruct (Nat.leb_spec (in_vocab_count m types) (in_vocab_count m (take k types)));
    [lia|].
  destruct (Nat.leb_spec (length types) k); [lia|].
  unfold at_. rewrite (in_vocabulary_entries_lookup m types v k ty) by done.
  destruct (v !! k) as [x|]; [|done]. cbn [bind]. apply IH.
Qed.

Lemma positions_in_vocabulary m types n pp pp' d0 :
  kept_entries m types pp pp' ->
  forall k, (k <= length types)%nat ->
    foldM (add_position log n pp') (seq 0 (in_vocab_count m (take k types))) d0
    = foldM (add_position log n pp) (seq 0 k) d0.
Proof.
  intros Hkept. induction k as [|k IH]; intros Hk; [done|].
  destruct (lookup_lt_is_Some_2 types k ltac:(lia)) as [ty Hty].
  rewrite (in_vocab_count_take_S m types k ty Hty).
  rewrite seq_app, seq_S, !foldM_app, IH by lia.
  destruct (foldM (add_position log n pp) (seq 0 k) d0) as [d|]; [|done].
  cbn [bind seq foldM]. rewrite Nat.add_0_l.
  destruct (out_of_vocabulary m ty) eqn:Hoov.
  - cbn [seq foldM].
    by rewrite add_position_skip by (by eapply sum_particles_oov).
  - cbn [seq foldM]. unfold add_position.
    by rewrite (sum_particles_in_vocabulary m types pp pp' k ty).
Qed.

Lemma evaluate_document_in_vocabulary m types n total ev pp pp' :
  length pp = n -> length pp' = n -> model ev = m ->
  match evaluate_document_ref log n false (total, ev, pp) types with
  | Ok (t, e, p) =>
      exists p',
        evaluate_document_ref log n false (total, ev, pp') (in_vocabulary m types)
        = Ok (t, e, p') /\
        length p = n /\ length p' = n /\ model e = m
  | OutOfRange =>
      evaluate_document_ref log n false (total, ev, pp') (in_vocabulary m types)
      = OutOfRange
  end.
Proof.
  intros Hpp Hpp' Hm. unfold evaluate_document_ref.
  pose proof (run_particles_in_vocabulary m types n n ev pp pp' ltac:(lia) Hpp Hpp' Hm)
    as Hrun.
  destruct (foldM (run_particle types false) (seq 0 n) (ev, pp, O))
    as [[[e p] d]|]; [|by rewrite Hrun].
  destruct Hrun as (p' & d' & -> & Hl & Hl' & Hme & Hkept).
  rewrite !take_ge in Hkept by lia. cbn [bind].
  pose proof (positions_in_vocabulary m types n p p' f0 Hkept (length types)
                ltac:(lia)) as Hloop.
  rewrite take_ge in Hloop by lia.
  change (length (in_vocabulary m types)) with (in_vocab_count m types).
  rewrite Hloop.
  destruct (foldM (add_position log n p) (seq 0 (length types)) f0) as [dl|]; [|done].
  cbn [bind]. by eexists.
Qed.

Lemma documents_in_vocabulary m n : forall docs total ev pp pp',
  length pp = n -> length pp' = n -> model ev = m ->
  bind (foldM (evaluate_document_ref log n false) (map (in_vocabulary m) docs)
          (total, ev, pp'))
    (fun '(t, e, _) => Ok (t, e))
  = bind (foldM (evaluate_document_ref log n false) docs (total, ev, pp))
      (fun '(t, e, _) => Ok (t, e)).
Proof.
  induction docs as [|types docs IH]; intros total ev pp pp' Hpp Hpp' Hm; [done|].
  cbn [map foldM].
  pose proof (evaluate_document_in_vocabulary m types n total ev pp pp' Hpp Hpp' Hm)
    as Hstep.
  destruct (evaluate_document_ref log n false (total, ev, pp) types)
    as [[[t e] p]|]; [|by rewrite Hstep].
  destruct Hstep as (p' & -> & Hl & Hl' & Hme). cbn [bind]. by apply IH.
Qed.

(** X15.  Without resampling, [evaluate] does not see out-of-vocabulary
    tokens: on a corpus and on the same corpus with every out-of-vocabulary
    token deleted it returns the same total and the same evaluator, or
    throws on both, whatever the particle count. *)
Theorem evaluate_ignores_oov_without_resampling ev docs n_particles :
  evaluate log ev (map (in_vocabulary (model ev)) docs) n_particles false
  = evaluate log ev docs n_particles false.
Proof.
  unfold evaluate.
  rewrite !(evaluate_loop_refines log n_particles false)
    by (rewrite ?length_replicate; done).
  apply documents_in_vocabulary; by rewrite ?length_replicate.
Qed.

End EvaluateWithoutResampling.

(** ** The order of one-unit operations *)

Section OperationOrder.
Context {F : Type} `{Arith F}.
Implicit Types (m : Model F) (st : LocalState F) (cc : list F).

Lemma net_Permutation t ops ops' : ops ≡ₚ ops' -> net t ops = net t ops'.
Proof.
  induction 1 as [|op ops ops' _ IH|op1 op2 ops|ops1 ops2 ops3 _ IH1 _ IH2];
    cbn [net foldr] in *.
  - done.
  - fold (net t ops). fold (net t ops'). lia.
  - lia.
  - congruence.
Qed.

Lemma net_untouched t ops : t ∉ ops.*1 -> net t ops = 0.
Proof.
  induction ops as [|[u incr] ops IH]; [done|].
  cbn [fmap list_fmap fst]. intros [Hne Hnotin]%not_elem_of_cons.
  cbn [net foldr fst snd]. fold (net t ops).
  rewrite decide_False by done. rewrite IH by done. lia.
Qed.

Lemma ops_in_range_Permutation n ops ops' :
  ops ≡ₚ ops' -> ops_in_range n ops = true -> ops_in_range n ops' = true.
Proof.
  unfold ops_in_range. intros Hperm Hr.
  apply forallb_forall. intros op Hop.
  rewrite forallb_forall in Hr. apply Hr.
  apply list_elem_of_In. rewrite Hperm. by apply list_elem_of_In.
Qed.

(** The counts and the cache after a run, topic by topic: a count has moved
    by the net number of units, and the coefficient of a topic that the run
    names is the one of its final count. *)
Lemma run_ops_counts m ops : forall cc st cc' st',
  run_ops m cc st ops = Ok (cc', st') ->
  length (topic_counts st') = length (topic_counts st) /\
  (forall t, nth t (topic_counts st') 0 = nth t (topic_counts st) 0
             + if decide (t < length (topic_counts st))%nat then net t ops else 0) /\
  (forall t, cc' !! t = if decide (t ∈ ops.*1)
                        then Some (coefficient m t (nth t (topic_counts st') 0))
                        else cc !! t).
Proof.
  induction ops as [|[u incr] ops IH]; intros cc st cc' st'.
  - intros [= <- <-]. split_and!; [done| |].
    + intros t. cbn [net foldr]. destruct (decide _); lia.
    + intros t. rewrite decide_False; [done|]. cbn. apply not_elem_of_nil.
  - unfold run_ops. cbn [foldM]. intros Hr. inv_bind Hr. destruct x as [cc1 st1].
    unfold apply_op in Hx. cbn [fst snd] in Hx.
    destruct (add_or_remove_inv _ _ _ _ _ _ _ Hx)
      as (c & ti & di & nz & Hc & Hucc & Hcc1 & Hst1).
    cbn zeta in Hcc1, Hst1. subst cc1 st1.
    pose proof (lookup_lt_Some _ _ _ Hc) as Hu.
    set (c' := if incr then c + 1 else c - 1) in *.
    destruct (IH _ _ _ _ Hr) as (Hlen & Hnth & Hcc').
    cbn [topic_counts set_index set_counts] in Hlen, Hnth.
    rewrite length_insert in Hlen, Hnth.
    split_and!; [done| |].
    + intros t. rewrite Hnth. cbn [net foldr fst snd]. fold (net t ops).
      destruct (decide (u = t)) as [->|Hne].
      * rewrite nth_lookup, list_lookup_insert_eq by done. cbn.
        rewrite (nth_lookup_Some _ _ 0 c Hc).
        subst c'. destruct (decide (t < _)%nat); [|lia]. destruct incr; lia.
      * rewrite nth_lookup, list_lookup_insert_ne, <- nth_lookup by done.
        destruct (decide _); lia.
    + intros t. rewrite Hcc'. cbn [fmap list_fmap fst].
      destruct (decide (t ∈ ops.*1)) as [Hin|Hnotin].
      * rewrite decide_True; [done|]. apply elem_of_cons; by right.
      * destruct (decide (t = u)) as [->|Hne].
        -- rewrite decide_True by (apply elem_of_cons; by left).
           rewrite list_lookup_insert_eq by done.
           rewrite Hnth, (net_untouched _ _ Hnotin).
           rewrite nth_lookup, list_lookup_insert_eq by done. cbn.
           destruct (decide _); do 2 f_equal; lia.
        -- rewrite decide_False.
           ++ by rewrite list_lookup_insert_ne.
           ++ intros [?|?]%elem_of_cons; done.
Qed.

(** X14.  The order of one-unit operations is irrelevant: from a state with
    a well-formed index and a cache of [n_topics] entries, two runs of the
    same in-range operations in different orders both return, with the same
    local counts, the same dense active-topic list of the same length and
    the same coefficient cache, also when a count is negative on the way.
    (Nothing is said of [topic_beta_mass], which is updated in the order of
    the operations.) *)
Theorem operation_order_is_irrelevant m cc st ops ops' :
  model_ok m -> index_ok (n_topics_ m) st -> length cc = n_topics_ m ->
  ops_in_range (n_topics_ m) ops = true -> ops ≡ₚ ops' ->
  exists cc1 st1 cc2 st2,
    run_ops m cc st ops = Ok (cc1, st1) /\
    run_ops m cc st ops' = Ok (cc2, st2) /\
    topic_counts st2 = topic_counts st1 /\
    active st2 = active st1 /\
    non_zero_topics st2 = non_zero_topics st1 /\
    cc2 = cc1.
Proof.
  intros Hm Hok Hlen Hrange Hperm.
  pose proof (ops_in_range_Permutation _ _ _ Hperm Hrange) as Hrange'.
  destruct (run_ops_total m ops cc st Hm Hok Hlen Hrange)
    as (cc1 & st1 & Hrun1 & Hok1 & _).
  destruct (run_ops_total m ops' cc st Hm Hok Hlen Hrange')
    as (cc2 & st2 & Hrun2 & Hok2 & _).
  destruct (run_ops_counts m ops cc st _ _ Hrun1) as (Hl1 & Hn1 & Hcc1).
  destruct (run_ops_counts m ops' cc st _ _ Hrun2) as (Hl2 & Hn2 & Hcc2).
  assert (Hcounts : topic_counts st2 = topic_counts st1).
  { apply (nth_ext _ _ 0 0); [congruence|].
    intros t _. by rewrite Hn1, Hn2, (net_Permutation t _ _ Hperm). }
  assert (Hact : active st2 = active st1).
  { rewrite (active_eq_positive _ _ Hok2), (active_eq_positive _ _ Hok1).
    unfold positive_topics. by rewrite Hcounts. }
  exists cc1, st1, cc2, st2. split_and!; [done|done|done|done| |].
  - rewrite <- (active_length _ _ Hok2), <- (active_length _ _ Hok1). by rewrite Hact.
  - apply list_eq. intros t. rewrite Hcc1, Hcc2, Hcounts.
    destruct (decide (t ∈ ops.*1)) as [Hin|Hnotin].
    + rewrite decide_True; [done|]. by rewrite <- Hperm.
    + rewrite decide_False; [done|]. by rewrite <- Hperm.
Qed.

End OperationOrder.

(** * Executions of the further properties *)

Lemma one_token_index_ok : index_ok 2 (snd one_token).
Proof.
  split.
  - reflexivity.
  - reflexivity.
  - simpl. lia.
  - repeat constructor.
  - intros t. change (active (snd one_token)) with [1%nat].
    change (topic_counts (snd one_token)) with [0; 1]. split.
    + intros ->%list_elem_of_singleton. exists 1. split; [reflexivity|lia].
    + intros (c & Hc & Hpos). destruct t as [|[|t]]; simpl in Hc.
      * injection Hc as <-. lia.
      * apply list_elem_of_singleton. reflexivity.
      * discriminate.
Qed.

Lemma operations_return_iff_topics_exist_witness :
  (exists r,
     run_ops (model worked_ev) (cached_coefficients_ worked_ev)
       (fresh_state (model worked_ev) 3) [(1%nat, true); (0%nat, false)] = Ok r) /\
  run_ops (model worked_ev) (cached_coefficients_ worked_ev)
    (fresh_state (model worked_ev) 3) [(1%nat, true); (2%nat, true)] = OutOfRange.
Proof.
  split.
  - apply (operations_return_iff_topics_exist (model worked_ev)
             (cached_coefficients_ worked_ev) 3 [(1%nat, true); (0%nat, false)]
             worked_model_ok eq_refl).
    reflexivity.
  - destruct (run_ops (model worked_ev) (cached_coefficients_ worked_ev)
                (fresh_state (model worked_ev) 3) [(1%nat, true); (2%nat, true)])
      as [r|] eqn:Hrun; [|reflexivity].
    assert (Hrange : ops_in_range 2 [(1%nat, true); (2%nat, true)] = true).
    { apply (operations_return_iff_topics_exist (model worked_ev)
               (cached_coefficients_ worked_ev) 3 [(1%nat, true); (2%nat, true)]
               worked_model_ok eq_refl).
      by exists r. }
    discriminate Hrange.
Defined.

Lemma remove_then_add_restores_witness :
  exists cc1 st1 cc2 st2,
    remove_topic_and_update_state_and_coefficients (model worked_ev)
      (fst one_token) (snd one_token) 1 = Ok (cc1, st1) /\
    add_topic_and_update_state_and_coefficients (model worked_ev) cc1 st1 1 0
    = Ok (cc2, st2) /\
    doc_topics st2 = [1; 0; 0]%nat /\ topic_counts st2 = [0; 1] /\
    active st2 = [1%nat] /\ non_zero_topics st2 = 1%nat /\
    cc2 = fst one_token.
Proof.
  exact (remove_then_add_restores (model worked_ev) (fst one_token)
           (snd one_token) 1 0 1 worked_model_ok one_token_index_ok
           eq_refl eq_refl eq_refl eq_refl).
Defined.

Lemma sample_new_topic_effect_witness :
  exists nt st',
    sample_new_topic (model worked_ev) (sampler_ worked_ev) worked_state
    = Ok (nt, snd (next (sampler_ worked_ev)), st') /\
    st' = set_index worked_state (topic_index worked_state) (dense_index st')
            (non_zero_topics worked_state) /\
    -1 <= nt < 2.
Proof.
  destruct (sample_new_topic (model worked_ev) (sampler_ worked_ev) worked_state)
    as [[[nt smp'] st']|] eqn:Hrun; [|vm_compute in Hrun; discriminate].
  destruct (sample_new_topic_effect _ _ _ _ _ _ Hrun) as (-> & Hst & Hrange).
  exists nt, st'. split; [reflexivity|]. split; [exact Hst|].
  exact (Hrange eq_refl eq_refl eq_refl).
Defined.

Lemma evaluate_without_particles_witness :
  evaluate log1 worked_ev [[1; 7; 1; 0]; [0]] 0 true = Ok (0%float, worked_ev).
Proof. exact (evaluate_without_particles log1 worked_ev [[1; 7; 1; 0]; [0]] true). Defined.

Lemma zero_draw_selects_no_topic_witness :
  sample_new_topic (model zero_ev) (sampler_ zero_ev) worked_state
  = Ok (-1, snd (next (sampler_ zero_ev)), worked_state).
Proof.
  exact (zero_draw_selects_no_topic (model zero_ev) (sampler_ zero_ev)
           worked_state eq_refl eq_refl eq_refl).
Defined.

Lemma get_word_probabilities_draws_witness :
  exists wp ev',
    get_word_probabilities worked_ev [1; 7; 1; 0] true = Ok (wp, ev') /\
    sampler_ ev' = after_draws 7 (sampler_ worked_ev).
Proof.
  destruct (get_word_probabilities worked_ev [1; 7; 1; 0] true)
    as [[wp ev']|] eqn:Hrun; [|vm_compute in Hrun; discriminate].
  exists wp, ev'. split; [reflexivity|].
  exact (get_word_probabilities_draws worked_ev ev' [1; 7; 1; 0] true wp Hrun).
Defined.

Lemma first_token_scored_from_priors_witness :
  exists wp ev',
    get_word_probabilities worked_ev [1; 0] true = Ok (wp, ev') /\
    wp !! 0%nat = Some 0x1.3478d83f9a3c7p-2%float.
Proof.
  destruct (get_word_probabilities worked_ev [1; 0] true)
    as [[wp ev']|] eqn:Hrun; [|vm_compute in Hrun; discriminate].
  exists wp, ev'. split; [reflexivity|].
  rewrite (first_token_scored_from_priors 2 [0.125; 0.125]%float
             0.015625%float [5; 5] [[3; 0]; [2; 1; 0]] (stub worked_draws)
             worked_ev 1 [0] true wp ev' worked_constructed eq_refl Hrun).
  vm_compute. reflexivity.
Defined.

Lemma operation_order_is_irrelevant_witness :
  exists cc1 st1 cc2 st2,
    run_ops (model worked_ev) (cached_coefficients_ worked_ev)
      (fresh_state (model worked_ev) 3)
      [(1%nat, true); (0%nat, true); (1%nat, false)] = Ok (cc1, st1) /\
    run_ops (model worked_ev) (cached_coefficients_ worked_ev)
      (fresh_state (model worked_ev) 3)
      [(1%nat, false); (1%nat, true); (0%nat, true)] = Ok (cc2, st2) /\
    topic_counts st2 = topic_counts st1 /\
    active st2 = active st1 /\
    non_zero_topics st2 = non_zero_topics st1 /\
    cc2 = cc1.
Proof.
  apply (operation_order_is_irrelevant (model worked_ev)
           (cached_coefficients_ worked_ev) (fresh_state (model worked_ev) 3)
           [(1%nat, true); (0%nat, true); (1%nat, false)]
           [(1%nat, false); (1%nat, true); (0%nat, true)]
           worked_model_ok (index_ok_fresh (model worked_ev) 3) eq_refl eq_refl).
  symmetry. apply (Permutation_cons_append [(1%nat, true); (0%nat, true)]).
Defined.

Lemma evaluate_ignores_oov_without_resampling_witness :
  evaluate log1 worked_ev
    (map (in_vocabulary (model worked_ev)) [[1; 7; 1; 0]; [-1; 9]; [0]]) 2 false
  = evaluate log1 worked_ev [[1; 7; 1; 0]; [-1; 9]; [0]] 2 false.
Proof.
  exact (evaluate_ignores_oov_without_resampling log1 worked_ev
           [[1; 7; 1; 0]; [-1; 9]; [0]] 2).
Defined.
